(** * mini-shell: the undo / trash / history core of [src/shell.py]

    A shallow embedding of the [Shell] class and of [CmdHandlers], and the
    properties of the specification that are about them.

    Modelling conventions.
    - Text is [string], one [ascii] per character (code points below 256).
    - A path is the list of its components, as [pathlib] keeps them: [".."]
      is kept by [/] and resolved by the operating system, ["."] and empty
      components are dropped.
    - The file system is a tree of directories and regular files, on one
      device and without symbolic links.  [shutil.move] is modelled by its
      [os.rename] path.
    - The history and counter files are fields of the session holding their
      contents, a line per list element; they are not nodes of the tree.
    - Python exceptions are values; a raised exception keeps the mutations
      made before it, as in Python. *)

From Stdlib Require Import ZArith Ascii String List Lia.
From stdpp Require Import base option list gmap strings sorting pretty.

#[local] Open Scope string_scope.
#[local] Open Scope list_scope.
#[local] Open Scope Z_scope.

(** ** Text *)

Module Text.

Definition code (c : ascii) : Z := Z.of_N (N_of_ascii c).

(** [str.isspace] on code points below 256. *)
Definition is_space (c : ascii) : bool :=
  let n := code c in
  ((9 <=? n) && (n <=? 13)) || ((28 <=? n) && (n <=? 32))
  || (n =? 133) || (n =? 160).

Fixpoint lstrip (l : list ascii) : list ascii :=
  match l with
  | c :: l' => if is_space c then lstrip l' else l
  | [] => []
  end.

Definition strip_chars (l : list ascii) : list ascii :=
  rev (lstrip (rev (lstrip l))).

(** [s.strip()] *)
Definition strip (s : string) : string :=
  string_of_list_ascii (strip_chars (list_ascii_of_string s)).

(** [s.split(sep)[0]]: the part of [s] before the first [sep]. *)
Fixpoint before (sep : ascii) (s : string) : string :=
  match s with
  | EmptyString => EmptyString
  | String c s' => if Ascii.eqb c sep then EmptyString else String c (before sep s')
  end.

Definition digit (c : ascii) : option Z :=
  let n := code c in
  if (48 <=? n) && (n <=? 57) then Some (n - 48) else None.

(** The digits of a decimal literal: at least one digit, single
    underscores between digits only. *)
Fixpoint digits (acc : Z) (after_digit : bool) (l : list ascii) : option Z :=
  match l with
  | [] => if after_digit then Some acc else None
  | c :: l' =>
      match digit c with
      | Some d => digits (10 * acc + d) true l'
      | None =>
          if Ascii.eqb c "_" && after_digit then digits acc false l' else None
      end
  end.

(** [int(s)] for a [str] argument: [None] stands for [ValueError]. *)
Definition py_int (s : string) : option Z :=
  match strip_chars (list_ascii_of_string s) with
  | "-"%char :: l => Z.opp <$> digits 0 false l
  | "+"%char :: l => digits 0 false l
  | l => digits 0 false l
  end.

(** [str.lower] on code points below 256. *)
Definition lower_char (c : ascii) : ascii :=
  let n := code c in
  if ((65 <=? n) && (n <=? 90))
     || ((192 <=? n) && (n <=? 222) && negb (n =? 215))
  then ascii_of_N (Z.to_N (n + 32)) else c.

Fixpoint lower (s : string) : string :=
  match s with
  | EmptyString => EmptyString
  | String c s' => String (lower_char c) (lower s')
  end.

(** [needle in s] for a one-character needle. *)
Fixpoint has_char (c : ascii) (s : string) : bool :=
  match s with
  | EmptyString => false
  | String d s' => Ascii.eqb c d || has_char c s'
  end.

(** [s.startswith(c)] for a one-character prefix. *)
Definition starts_with (c : ascii) (s : string) : bool :=
  match s with
  | String d _ => Ascii.eqb c d
  | EmptyString => false
  end.

(** [str(n)] *)
Definition str (n : Z) : string := pretty n.

End Text.

(** ** Paths ([pathlib.PurePosixPath]) *)

Module Path.

(** [s.split(sep)] *)
Fixpoint fields (sep : ascii) (s : string) : list string :=
  match s with
  | EmptyString => [EmptyString]
  | String c s' =>
      if Ascii.eqb c sep then EmptyString :: fields sep s'
      else match fields sep s' with
           | f :: fs => String c f :: fs
           | [] => [String c EmptyString]
           end
  end.

(** The components [pathlib] keeps of a string: empty ones and ["."] go,
    [".."] stays. *)
Definition parts (s : string) : list string :=
  filter (fun c => c <> "" /\ c <> ".") (fields "/" s).

(** [base / arg]: an absolute [arg] replaces [base]. *)
Definition join (base : list string) (arg : string) : list string :=
  if Text.starts_with "/" arg then parts arg else base ++ parts arg.

(** [p.name] *)
Definition name (p : list string) : string := default "" (last p).

(** [p / name] for a single component [name]. *)
Definition child (p : list string) (name : string) : list string :=
  if decide (name = "") then p else p ++ [name].

(** [p.parent] *)
Definition parent (p : list string) : list string := removelast p.

(** [str(p)] *)
Definition show (p : list string) : string :=
  match p with
  | [] => "/"
  | _ => fold_right (fun c acc => "/" +:+ c +:+ acc) "" p
  end.

(** [str(p)] for a relative path. *)
Definition show_rel (p : list string) : string :=
  match p with
  | [] => "."
  | c :: p' => c +:+ fold_right (fun c acc => "/" +:+ c +:+ acc) "" p'
  end.

Definition step (acc : list string) (c : string) : list string :=
  if decide (c = "..") then removelast acc else acc ++ [c].

(** [p.resolve()] where nothing is a symbolic link: [".."] removes the
    component before it, and the root is its own parent. *)
Definition resolve (p : list string) : list string := foldl step [] p.

(** [p.relative_to(base)]: [None] stands for [ValueError]. *)
Fixpoint relative_to (base p : list string) : option (list string) :=
  match base, p with
  | [], _ => Some p
  | b :: base', c :: p' => if decide (b = c) then relative_to base' p' else None
  | _ :: _, [] => None
  end.

End Path.

(** ** Exceptions *)

Inductive exn_class :=
| ValueError | UnicodeDecodeError | FileNotFoundError | FileExistsError
| IsADirectoryError | NotADirectoryError | PermissionError | OSError
| IndexError | ShutilError | EOFError | ReError | SystemExit
| Diverges.   (* a loop of the model left without fuel; see
                 [free_slot_total] *)

Record exn := Exn { exn_kind : exn_class; exn_msg : string }.

#[global] Instance exn_class_eq_dec : EqDecision exn_class.
Proof. solve_decision. Defined.

(** [isinstance(e, Exception)]: [SystemExit] is a [BaseException] only. *)
Definition is_exception (e : exn) : bool :=
  bool_decide (exn_kind e <> SystemExit /\ exn_kind e <> Diverges).

(** [isinstance(e, ValueError)]: [UnicodeDecodeError] is a subclass. *)
Definition is_value_error (e : exn) : bool :=
  bool_decide (exn_kind e = ValueError \/ exn_kind e = UnicodeDecodeError).

(** A file of the shell's own, as [open] and [read] find it. *)
Inductive disk_file (A : Type) :=
| Absent                (* no such file *)
| NoAccess              (* it exists and may not be read: [PermissionError] *)
| Undecodable           (* it is not valid UTF-8: [UnicodeDecodeError] *)
| Holds (a : A).        (* it reads as [a] *)
Arguments Absent {A}.
Arguments NoAccess {A}.
Arguments Undecodable {A}.
Arguments Holds {A} a.

Inductive result (A : Type) :=
| Ok (a : A)
| Raise (e : exn).
Arguments Ok {A} a.
Arguments Raise {A} e.

(** ** The file system *)

(** What [read_text(encoding="utf-8")] finds in a regular file. *)
Inductive fdata :=
| Utf8 (s : string)                (* readable, decodes to [s] *)
| Garbled (raw : list Byte.byte)   (* readable, not valid UTF-8 *)
| Locked (raw : list Byte.byte).   (* no read permission *)

#[warnings="-register-all"]
Inductive node :=
| File (d : fdata)
| Dir (es : gmap string node).

Module Tree.

(** The node at a resolved path. *)
Fixpoint lookup (p : list string) (n : node) : option node :=
  match p with
  | [] => Some n
  | c :: p' =>
      match n with
      | Dir es => es !! c ≫= lookup p'
      | File _ => None
      end
  end.

(** Set ([Some]) or remove ([None]) the entry at a resolved path; nothing
    happens where the parent is not a directory. *)
Fixpoint update (p : list string) (v : option node) (n : node) : node :=
  match p with
  | [] => default n v
  | [c] =>
      match n with
      | Dir es => Dir (partial_alter (fun _ => v) c es)
      | File _ => n
      end
  | c :: p' =>
      match n with
      | Dir es =>
          match es !! c with
          | Some ch => Dir (<[c := update p' v ch]> es)
          | None => n
          end
      | File _ => n
      end
  end.

Definition is_dir_node (o : option node) : bool :=
  match o with Some (Dir _) => true | _ => false end.

Definition is_file_node (o : option node) : bool :=
  match o with Some (File _) => true | _ => false end.

(** Resolution by the operating system: every component is looked up in
    an existing directory; [".."] goes to the parent. *)
Fixpoint canon_from (t : node) (acc p : list string) : option (list string) :=
  match p with
  | [] => Some acc
  | c :: p' =>
      if is_dir_node (lookup acc t) then canon_from t (Path.step acc c) p'
      else None
  end.

Definition canon (t : node) (p : list string) : option (list string) :=
  canon_from t [] p.

(** [os.stat(p)]: [None] stands for [ENOENT] or [ENOTDIR]. *)
Definition stat (t : node) (p : list string) : option node :=
  canon t p ≫= fun q => lookup q t.

(** [p.exists()], [p.is_dir()], [p.is_file()] *)
Definition exists_ (t : node) (p : list string) : bool :=
  bool_decide (is_Some (stat t p)).
Definition is_dir (t : node) (p : list string) : bool := is_dir_node (stat t p).
Definition is_file (t : node) (p : list string) : bool := is_file_node (stat t p).

End Tree.

(** ** Computations that mutate a state and may raise

    The state reached when an exception is raised is the state at the
    [raise]: nothing is rolled back. *)

Definition M (S A : Type) : Type := S -> result A * S.

#[global] Instance M_ret {S} : MRet (M S) := fun A a s => (Ok a, s).

#[global] Instance M_bind {S} : MBind (M S) := fun A B k m s =>
  match m s with
  | (Ok a, s') => k a s'
  | (Raise e, s') => (Raise e, s')
  end.

#[global] Instance M_fmap {S} : FMap (M S) := fun A B f m s =>
  match m s with
  | (Ok a, s') => (Ok (f a), s')
  | (Raise e, s') => (Raise e, s')
  end.

Definition raise {S A} (k : exn_class) (msg : string) : M S A :=
  fun s => (Raise (Exn k msg), s).

Definition get {S} : M S S := fun s => (Ok s, s).

Definition modify {S} (f : S -> S) : M S unit := fun s => (Ok tt, f s).

(** [try: m  except <catches>: handler] *)
Definition try_except {S A} (m : M S A) (catches : exn -> bool)
    (handler : exn -> M S A) : M S A := fun s =>
  match m s with
  | (Raise e, s') => if catches e then handler e s' else (Raise e, s')
  | r => r
  end.

(** Run a computation on a component of the state. *)
Definition zoom {S T A} (proj : S -> T) (inj : T -> S -> S) (m : M T A) : M S A :=
  fun s => match m (proj s) with (r, t') => (r, inj t' s) end.

(** [for x in l: body(x)] *)
Fixpoint for_each {S A} (l : list A) (body : A -> M S unit) : M S unit :=
  match l with
  | [] => mret tt
  | x :: l' => body x ;; for_each l' body
  end.

(** ** Platform primitives on the tree *)

Module Os.

Definition enoent (p : list string) : exn :=
  Exn FileNotFoundError ("[Errno 2] No such file or directory: '" +:+ Path.show p +:+ "'").

Definition fail {A} (e : exn) : M node A := fun t => (Raise e, t).

(** [os.rename(src, dst)] *)
Definition rename (src dst : list string) : M node unit := fun t =>
  match Tree.canon t src, Tree.canon t dst with
  | Some P, Some Q =>
      match Tree.lookup P t with
      | None => (Raise (enoent src), t)
      | Some n =>
          if bool_decide (Path.name src = ".." \/ Path.name dst = ".." \/ P = [] \/ Q = [])
          then (Raise (Exn OSError "[Errno 16] Device or resource busy"), t)
          else if bool_decide (P = Q) then (Ok tt, t)
          else if bool_decide (P `prefix_of` Q)
          then (Raise (Exn OSError "[Errno 22] Invalid argument"), t)
          else
            let moved := Tree.update Q (Some n) (Tree.update P None t) in
            match Tree.lookup Q t, n with
            | None, _ => (Ok tt, moved)
            | Some (File _), File _ => (Ok tt, moved)
            | Some (File _), Dir _ =>
                (Raise (Exn NotADirectoryError "[Errno 20] Not a directory"), t)
            | Some (Dir _), File _ =>
                (Raise (Exn IsADirectoryError "[Errno 21] Is a directory"), t)
            | Some (Dir es), Dir _ =>
                if bool_decide (es = ∅) then (Ok tt, moved)
                else (Raise (Exn OSError "[Errno 39] Directory not empty"), t)
            end
      end
  | _, _ => (Raise (enoent src), t)
  end.

(** [shutil.move(src, dst)]: into [dst] when it is a directory, onto it
    otherwise. *)
Definition move (src dst : list string) : M node unit := fun t =>
  let onto real :=
    try_except (rename src real) (fun _ => true)
      (fun e =>
         if Tree.is_dir t src
            && bool_decide (Path.resolve src `prefix_of` Path.resolve dst)
         then fail (Exn ShutilError
                      ("Cannot move a directory '" +:+ Path.show src
                       +:+ "' into itself '" +:+ Path.show dst +:+ "'."))
         else fail e) in
  if Tree.is_dir t dst then
    if bool_decide (Tree.canon t src = Tree.canon t dst) then rename src dst t
    else
      let real := Path.child dst (Path.name src) in
      if Tree.exists_ t real
      then (Raise (Exn ShutilError
                     ("Destination path '" +:+ Path.show real +:+ "' already exists")), t)
      else onto real t
  else onto dst t.

(** [os.remove(p)] *)
Definition remove (p : list string) : M node unit := fun t =>
  match Tree.canon t p with
  | Some P =>
      match Tree.lookup P t with
      | Some (File _) => (Ok tt, Tree.update P None t)
      | Some (Dir _) => (Raise (Exn IsADirectoryError "[Errno 21] Is a directory"), t)
      | None => (Raise (enoent p), t)
      end
  | None => (Raise (enoent p), t)
  end.

(** [shutil.rmtree(p)] *)
Definition rmtree (p : list string) : M node unit := fun t =>
  match Tree.canon t p with
  | Some P =>
      match Tree.lookup P t with
      | Some (Dir _) =>
          if bool_decide (P = [] \/ Path.name p = "..")
          then (Raise (Exn OSError "[Errno 16] Device or resource busy"), t)
          else (Ok tt, Tree.update P None t)
      | Some (File _) => (Raise (Exn NotADirectoryError "[Errno 20] Not a directory"), t)
      | None => (Raise (enoent p), t)
      end
  | None => (Raise (enoent p), t)
  end.

(** [p.mkdir(exist_ok=True)] *)
Definition mkdir_exist_ok (p : list string) : M node unit := fun t =>
  match Tree.canon t p with
  | Some P =>
      match Tree.lookup P t with
      | None => (Ok tt, Tree.update P (Some (Dir ∅)) t)
      | Some (Dir _) => (Ok tt, t)
      | Some (File _) => (Raise (Exn FileExistsError "[Errno 17] File exists"), t)
      end
  | None => (Raise (enoent p), t)
  end.

(** Decoding the bytes of a file as UTF-8 text. *)
Definition decode (d : fdata) : exn + string :=
  match d with
  | Utf8 s => inr s
  | Garbled _ => inl (Exn UnicodeDecodeError "'utf-8' codec can't decode")
  | Locked _ => inl (Exn PermissionError "[Errno 13] Permission denied")
  end.

(** [p.read_text(encoding="utf-8")] *)
Definition read_text (p : list string) : M node string := fun t =>
  match Tree.stat t p with
  | Some (File d) =>
      match decode d with inr s => (Ok s, t) | inl e => (Raise e, t) end
  | Some (Dir _) => (Raise (Exn IsADirectoryError "[Errno 21] Is a directory"), t)
  | None => (Raise (enoent p), t)
  end.

(** [shutil.copy2(src, dst)] *)
Definition copy2 (src dst : list string) : M node unit := fun t =>
  match Tree.stat t src with
  | Some (File (Locked _)) =>
      (Raise (Exn PermissionError "[Errno 13] Permission denied"), t)
  | Some (File d) =>
      let real := if Tree.is_dir t dst then Path.child dst (Path.name src) else dst in
      match Tree.canon t real with
      | Some Q =>
          if Tree.is_dir_node (Tree.lookup Q t)
          then (Raise (Exn IsADirectoryError "[Errno 21] Is a directory"), t)
          else (Ok tt, Tree.update Q (Some (File d)) t)
      | None => (Raise (enoent real), t)
      end
  | Some (Dir _) => (Raise (Exn IsADirectoryError "[Errno 21] Is a directory"), t)
  | None => (Raise (enoent src), t)
  end.

Definition locked (n : node) : bool :=
  match n with File (Locked _) => true | _ => false end.

(** The part of a tree [copytree] manages to copy: everything but the
    files it may not read. *)
Fixpoint readable_part (n : node) : node :=
  match n with
  | File _ => n
  | Dir es =>
      Dir (map_fold (fun name c acc =>
                       if locked c then acc else <[name := readable_part c]> acc)
                    ∅ es)
  end.

Fixpoint all_readable (n : node) : bool :=
  match n with
  | File d => negb (locked n)
  | Dir es => map_fold (fun _ c acc => all_readable c && acc) true es
  end.

(** [os.makedirs] of the parents, then the new node: the tree with [leaf]
    at [p] below [n], or [None] when a file is in the way or [p] exists. *)
Fixpoint place (p : list string) (leaf : node) (n : option node) : option node :=
  match p with
  | [] => match n with None => Some leaf | Some _ => None end
  | c :: p' =>
      match n with
      | None => (fun ch => Dir {[c := ch]}) <$> place p' leaf None
      | Some (Dir es) => (fun ch => Dir (<[c := ch]> es)) <$> place p' leaf (es !! c)
      | Some (File _) => None
      end
  end.

(** [shutil.copytree(src, dst)]: the destination is created with its
    missing parents; unreadable files are reported once the rest has been
    copied. *)
Definition copytree (src dst : list string) : M node unit := fun t =>
  match Tree.stat t src with
  | Some (Dir es) =>
      match place (Path.resolve dst) (readable_part (Dir es)) (Some t) with
      | Some t' =>
          if all_readable (Dir es) then (Ok tt, t')
          else (Raise (Exn ShutilError "[Errno 13] Permission denied"), t')
      | None => (Raise (Exn FileExistsError "[Errno 17] File exists"), t)
      end
  | Some (File _) => (Raise (Exn NotADirectoryError "[Errno 20] Not a directory"), t)
  | None => (Raise (enoent src), t)
  end.

(** [sorted(p.iterdir())], by name. *)
Definition listdir (t : node) (p : list string) : list string :=
  match Tree.stat t p with
  | Some (Dir es) => merge_sort String.le (fst <$> map_to_list es)
  | _ => []
  end.

(** The regular files [os.walk] yields below the directory [n], each with
    its path from there ([sub] is the way walked so far): the files of a
    directory before those of its subdirectories. *)
Fixpoint walk (sub : list string) (n : node) : list (list string * fdata) :=
  match n with
  | File _ => []
  | Dir es =>
      map_fold (fun name c acc =>
                  match c with File d => (sub ++ [name], d) :: acc | Dir _ => acc end)
               [] es
      ++ map_fold (fun name c acc => walk (sub ++ [name]) c ++ acc) [] es
  end.

End Os.

(** ** Tokenization ([shlex.split], POSIX mode) *)

Module Shlex.

Inductive state :=
| Blank                 (* between tokens *)
| Word                  (* inside a token *)
| Quote (q : ascii)     (* inside quotes *)
| Escape (back : option ascii).  (* after a backslash; [Some q]: inside quotes [q] *)

Definition is_white (c : ascii) : bool :=
  Ascii.eqb c " " || Ascii.eqb c "009" || Ascii.eqb c "013" || Ascii.eqb c "010".

Definition is_quote (c : ascii) : bool := Ascii.eqb c "'" || Ascii.eqb c "034".

Definition is_escape (c : ascii) : bool := Ascii.eqb c "\".

Definition token (rev_tok : list ascii) : string :=
  string_of_list_ascii (rev rev_tok).

(** [None] stands for [ValueError] (no closing quotation, no escaped
    character). *)
Fixpoint lex (st : state) (rev_tok : list ascii) (quoted : bool)
    (l : list ascii) : option (list string) :=
  match l with
  | [] =>
      match st with
      | Blank => Some []
      | Word =>
          if negb quoted && bool_decide (rev_tok = []) then Some []
          else Some [token rev_tok]
      | Quote _ | Escape _ => None
      end
  | c :: l' =>
      match st with
      | Blank =>
          if is_white c then lex Blank rev_tok quoted l'
          else if is_escape c then lex (Escape None) rev_tok quoted l'
          else if is_quote c then lex (Quote c) rev_tok quoted l'
          else lex Word [c] quoted l'
      | Word =>
          if is_white c then
            if negb quoted && bool_decide (rev_tok = []) then lex Blank rev_tok quoted l'
            else cons (token rev_tok) <$> lex Blank [] false l'
          else if is_quote c then lex (Quote c) rev_tok quoted l'
          else if is_escape c then lex (Escape None) rev_tok quoted l'
          else lex Word (c :: rev_tok) quoted l'
      | Quote q =>
          if Ascii.eqb c q then lex Word rev_tok true l'
          else if is_escape c && Ascii.eqb q "034" then lex (Escape (Some q)) rev_tok true l'
          else lex (Quote q) (c :: rev_tok) true l'
      | Escape None => lex Word (c :: rev_tok) quoted l'
      | Escape (Some q) =>
          if negb (is_escape c) && negb (Ascii.eqb c q)
          then lex (Quote q) (c :: "\"%char :: rev_tok) quoted l'
          else lex (Quote q) (c :: rev_tok) quoted l'
      end
  end.

Definition split (s : string) : option (list string) :=
  lex Blank [] false (list_ascii_of_string s).

End Shlex.

(** ** The session: the fields of [Shell] and the world around it *)

(** [shell.last_undo], a [functools.partial] in the source: the function
    and its arguments. *)
Inductive undo_action :=
| UndoMove (src dst : list string)   (* [partial(shutil.move, src, dst)] *)
| UndoRmtree (dst : list string)     (* [partial(shutil.rmtree, dst)] *)
| UndoRemove (dst : list string).    (* [partial(os.remove, dst)] *)

Inductive event :=
| Print (s : string)       (* [print(s)] *)
| PrintStat (name : string)  (* a [ls -l] line: mode, size, mtime, name *)
| PrintErr (s : string)    (* [print(s, file=sys.stderr)] *)
| Prompt (s : string)      (* the prompt of [input(s)] *)
| LogInfo (s : string)     (* [logging.info(s)] *)
| LogError (s : string).   (* [logging.error(s)] *)

Record Shell := mkShell {
  current_dir : list string;
  trash_dir : list string;
  hist_file : option (list string);  (* the lines of the history file; [None]: no file *)
  counter_file : disk_file string;   (* the counter file *)
  global_counter : Z;
  last_undo : option undo_action;
  home : list string;                (* [pathlib.Path.home()] *)
  tree : node;                       (* the file system *)
  stdin : list string;               (* the lines [input()] will return *)
  output : list event                (* what was printed and logged, oldest first *)
}.

Definition set_current_dir (d : list string) (s : Shell) : Shell :=
  mkShell d (trash_dir s) (hist_file s) (counter_file s) (global_counter s)
          (last_undo s) (home s) (tree s) (stdin s) (output s).
Definition set_hist_file (h : option (list string)) (s : Shell) : Shell :=
  mkShell (current_dir s) (trash_dir s) h (counter_file s) (global_counter s)
          (last_undo s) (home s) (tree s) (stdin s) (output s).
Definition set_counter_file (c : disk_file string) (s : Shell) : Shell :=
  mkShell (current_dir s) (trash_dir s) (hist_file s) c (global_counter s)
          (last_undo s) (home s) (tree s) (stdin s) (output s).
Definition set_global_counter (n : Z) (s : Shell) : Shell :=
  mkShell (current_dir s) (trash_dir s) (hist_file s) (counter_file s) n
          (last_undo s) (home s) (tree s) (stdin s) (output s).
Definition set_last_undo (u : option undo_action) (s : Shell) : Shell :=
  mkShell (current_dir s) (trash_dir s) (hist_file s) (counter_file s)
          (global_counter s) u (home s) (tree s) (stdin s) (output s).
Definition set_tree (t : node) (s : Shell) : Shell :=
  mkShell (current_dir s) (trash_dir s) (hist_file s) (counter_file s)
          (global_counter s) (last_undo s) (home s) t (stdin s) (output s).
Definition set_stdin (l : list string) (s : Shell) : Shell :=
  mkShell (current_dir s) (trash_dir s) (hist_file s) (counter_file s)
          (global_counter s) (last_undo s) (home s) (tree s) l (output s).
Definition set_output (o : list event) (s : Shell) : Shell :=
  mkShell (current_dir s) (trash_dir s) (hist_file s) (counter_file s)
          (global_counter s) (last_undo s) (home s) (tree s) (stdin s) o.

(** A platform primitive run on the session's file system. *)
Definition on_tree {A} (m : M node A) : M Shell A := zoom tree set_tree m.

Definition emit (e : event) : M Shell unit :=
  modify (fun s => set_output (output s ++ [e]) s).

(** [input(prompt)] *)
Definition input (prompt : string) : M Shell string := fun s =>
  match stdin s with
  | line :: rest => (Ok line, set_stdin rest (set_output (output s ++ [Prompt prompt]) s))
  | [] => (Raise (Exn EOFError "EOF when reading a line"),
           set_output (output s ++ [Prompt prompt]) s)
  end.

(** The inverse action a descriptor stands for. *)
Definition run_undo (u : undo_action) : M node unit :=
  match u with
  | UndoMove src dst => Os.move src dst
  | UndoRmtree dst => Os.rmtree dst
  | UndoRemove dst => Os.remove dst
  end.

(** The line the history file gets for a command. *)
Definition hist_line (n : Z) (cmd : string) : string :=
  Text.str n +:+ ". " +:+ cmd.

(** How many candidates the naming loop of [rm] can need: one more than
    the trash holds entries. *)
Definition slot_bound (t : node) (trash : list string) : nat :=
  match Tree.stat t trash with
  | Some (Dir es) => S (size es)
  | _ => 1
  end.

(** [while trash_path.exists(): trash_path = trash_dir / f"{base_name}_{i}"; i += 1] *)
Fixpoint free_slot (fuel : nat) (t : node) (trash : list string) (base_name : string)
    (i : Z) (trash_path : list string) : option (list string) :=
  if Tree.exists_ t trash_path then
    match fuel with
    | O => None
    | S fuel' =>
        free_slot fuel' t trash base_name (i + 1)
                  (Path.child trash (base_name +:+ "_" +:+ Text.str i))
    end
  else Some trash_path.

(** [lines[-n:]] *)
Definition last_lines (n : Z) (lines : list string) : list string :=
  if 0 <? n then drop (length lines - Z.to_nat n) lines
  else drop (Z.to_nat (- n)) lines.

(** [str.splitlines]: the line boundaries among code points below 256. *)
Definition is_line_break (c : ascii) : bool :=
  let n := Text.code c in
  ((10 <=? n) && (n <=? 13)) || ((28 <=? n) && (n <=? 30)) || (n =? 133).

Fixpoint splitlines_from (rev_cur : list ascii) (started : bool) (l : list ascii)
    : list string :=
  match l with
  | [] => if started then [Shlex.token rev_cur] else []
  | c :: l' =>
      if is_line_break c then
        Shlex.token rev_cur ::
          match l' with
          | d :: l'' =>
              if Ascii.eqb c "013" && Ascii.eqb d "010"
              then splitlines_from [] false l''
              else splitlines_from [] false l'
          | [] => []
          end
      else splitlines_from (c :: rev_cur) true l'
  end.

Definition splitlines (s : string) : list string :=
  splitlines_from [] false (list_ascii_of_string s).

(** [enumerate(l, start=n)] *)
Fixpoint enumerate {A} (n : Z) (l : list A) : list (Z * A) :=
  match l with
  | [] => []
  | x :: l' => (n, x) :: enumerate (n + 1) l'
  end.

(** ** The command handlers ([CmdHandlers])

    Each handler returns the directory to change to, if any.  The regular
    expression engine is the platform's: [re_compile pattern ignore_case] is
    the predicate [regex.search] of the compiled pattern, or [None] where
    [re.compile] raises. *)

Section Handlers.

Variable re_compile : string -> bool -> option (string -> bool).

Definition ls (args : list string) : M Shell (option (list string)) :=
  let long_format := existsb (fun a => bool_decide (a = "-l" \/ a = "-1")) args in
  let target_args := filter (fun a => ~ (a = "-l" \/ a = "-1")) args in
  s ← get;
  let target := match target_args with
                | a :: _ => Path.join (current_dir s) a
                | [] => current_dir s
                end in
  if negb (Tree.exists_ (tree s) target) then
    raise FileNotFoundError ("No such file or directory: " +:+ Path.show target)
  else if Tree.is_dir (tree s) target then
    for_each (Os.listdir (tree s) target)
             (fun name => emit (if long_format then PrintStat name else Print name)) ;;
    mret None
  else
    emit (if long_format then PrintStat (Path.name target) else Print (Path.name target)) ;;
    mret None.

Definition cd (args : list string) : M Shell (option (list string)) :=
  s ← get;
  let new_dir :=
    match args with
    | [] => home s
    | arg :: _ =>
        if bool_decide (arg = "/") then []
        else if bool_decide (arg = "~") then home s
        else if bool_decide (arg = "..") then Path.parent (current_dir s)
        else Path.resolve (Path.join (current_dir s) arg)
    end in
  if Tree.exists_ (tree s) new_dir && Tree.is_dir (tree s) new_dir then
    mret (Some new_dir)
  else
    raise FileNotFoundError
          ("No such directory: " +:+ match args with a :: _ => a | [] => "~" end).

Definition cat (args : list string) : M Shell (option (list string)) :=
  match args with
  | [] => raise ValueError "cat: missing file operand"
  | a :: _ =>
      s ← get;
      let file_path := Path.join (current_dir s) a in
      if Tree.exists_ (tree s) file_path && Tree.is_file (tree s) file_path then
        text ← on_tree (Os.read_text file_path);
        emit (Print text) ;;
        mret None
      else
        raise FileNotFoundError ("cat: " +:+ a +:+ ": No such file or directory")
  end.

Definition cp (args : list string) : M Shell (option (list string)) :=
  let recursive := match args with a :: _ => bool_decide (a = "-r") | [] => false end in
  let args := if recursive then tail args else args in
  match args with
  | [a0; a1] =>
      s ← get;
      let src := Path.join (current_dir s) a0 in
      let dst := Path.join (current_dir s) a1 in
      if negb (Tree.exists_ (tree s) src) then
        raise FileNotFoundError
              ("cp: cannot stat '" +:+ a0 +:+ "': No such file or directory")
      else if Tree.exists_ (tree s) dst then
        raise FileExistsError ("cp: destination '" +:+ a1 +:+ "' exists")
      else if Tree.is_dir (tree s) src && negb recursive then
        raise IsADirectoryError "cp: -r not specified; omitting directory"
      else
        on_tree (if recursive then Os.copytree src dst else Os.copy2 src dst) ;;
        s' ← get;
        modify (set_last_undo
                  (Some (if Tree.is_dir (tree s') dst then UndoRmtree dst
                         else UndoRemove dst))) ;;
        mret None
  | _ => raise ValueError "cp: missing source or destination"
  end.

Definition mv (args : list string) : M Shell (option (list string)) :=
  match args with
  | [a0; a1] =>
      s ← get;
      let src := Path.join (current_dir s) a0 in
      let dst := Path.join (current_dir s) a1 in
      if negb (Tree.exists_ (tree s) src) then
        raise FileNotFoundError
              ("mv: cannot stat '" +:+ a0 +:+ "': No such file or directory")
      else
        let final_dst :=
          if Tree.exists_ (tree s) dst && Tree.is_dir (tree s) dst
          then Path.child dst (Path.name src) else dst in
        if Tree.exists_ (tree s) final_dst then
          raise FileExistsError
                ("mv: destination '" +:+ Path.show final_dst +:+ "' exists")
        else
          on_tree (Os.move src final_dst) ;;
          modify (set_last_undo (Some (UndoMove final_dst src))) ;;
          mret None
  | _ => raise ValueError "mv: missing source or destination"
  end.

(** Lines 228 to 235 of [rm]: the trash name, the move, the descriptor. *)
Definition stage (path : list string) : M Shell unit :=
  s ← get;
  match free_slot (slot_bound (tree s) (trash_dir s)) (tree s) (trash_dir s)
                  (Path.name path) 1 (Path.child (trash_dir s) (Path.name path)) with
  | None => raise Diverges "rm"
  | Some trash_path =>
      on_tree (Os.move path trash_path) ;;
      modify (set_last_undo (Some (UndoMove trash_path path)))
  end.

(** The body of the [for arg in args] loop of [rm]. *)
Definition rm_one (recursive : bool) (arg : string) : M Shell unit :=
  if bool_decide (arg = "..") then
    raise PermissionError "rm: cannot remove parent directory"
  else
    s ← get;
    let path := Path.join (current_dir s) arg in
    if negb (Tree.exists_ (tree s) path) then
      raise FileNotFoundError
            ("rm: cannot remove '" +:+ arg +:+ "': No such file or directory")
    else if bool_decide (Path.resolve path = []) then
      raise PermissionError "rm: cannot remove root directory"
    else if Tree.is_dir (tree s) path && negb recursive then
      raise IsADirectoryError ("rm: cannot remove '" +:+ arg +:+ "': Is a directory")
    else
      confirmed ←
        (if Tree.is_dir (tree s) path && recursive then
           confirm ← input ("rm: remove directory '" +:+ arg +:+ "'? (y/n) ");
           mret (bool_decide (Text.lower confirm = "y"))
         else mret true);
      if negb confirmed then mret tt else stage path.

Definition rm (args : list string) : M Shell (option (list string)) :=
  let recursive := match args with a :: _ => bool_decide (a = "-r") | [] => false end in
  let args := if recursive then tail args else args in
  match args with
  | [] => raise ValueError "rm: missing operand"
  | _ => for_each args (rm_one recursive) ;; mret None
  end.

(** [search_file(f)] of [grep], for a file [f] holding [d]. *)
Definition search_file (search : string -> bool) (f : list string) (d : fdata)
    : M Shell unit :=
  match Os.decode d with
  | inl _ => mret tt
  | inr content =>
      for_each (enumerate 1 (splitlines content))
        (fun '(lnum, line) =>
           if search line then
             s ← get;
             match Path.relative_to (current_dir s) f with
             | Some rel_f =>
                 emit (Print (Path.show_rel rel_f +:+ ":" +:+ Text.str lnum
                              +:+ ":" +:+ line))
             | None => raise ValueError "is not in the subpath of"
             end
           else mret tt)
  end.

(** The option loop of [grep]: [while args and args[0].startswith("-")]. *)
Fixpoint grep_options (recursive ignore_case : bool) (args : list string)
    : bool * bool * list string :=
  match args with
  | opt :: args' =>
      if Text.starts_with "-" opt then
        grep_options (recursive || Text.has_char "r" opt)
                     (ignore_case || Text.has_char "i" opt) args'
      else (recursive, ignore_case, args)
  | [] => (recursive, ignore_case, args)
  end.

Definition grep (args : list string) : M Shell (option (list string)) :=
  let '(recursive, ignore_case, args) := grep_options false false args in
  match args with
  | [pattern; a1] =>
      s ← get;
      let path := Path.join (current_dir s) a1 in
      if negb (Tree.exists_ (tree s) path) then
        raise FileNotFoundError ("grep: " +:+ a1 +:+ " no such file or directory")
      else
        match re_compile pattern ignore_case with
        | None => raise ReError "invalid pattern"
        | Some search =>
            match Tree.stat (tree s) path with
            | Some (File d) => search_file search path d ;; mret None
            | Some (Dir es) =>
                if negb recursive then
                  raise IsADirectoryError "grep: is directory, use -r"
                else
                  for_each (Os.walk [] (Dir es))
                           (fun '(sub, d) => search_file search (path ++ sub) d) ;;
                  mret None
            | None =>
                raise FileNotFoundError
                      ("grep: " +:+ a1 +:+ " no such file or directory")
            end
        end
  | _ => raise ValueError "grep: usage: grep [-r] [-i] <pattern> <path>"
  end.

Definition history (args : list string) : M Shell (option (list string)) :=
  n ← match args with
      | a :: _ =>
          match Text.py_int a with
          | Some n => mret (Some n)
          | None => raise ValueError "invalid literal for int() with base 10"
          end
      | [] => mret None
      end;
  s ← get;
  match hist_file s with
  | Some lines =>
      let lines := match n with
                   | Some n => if bool_decide (n = 0) then lines else last_lines n lines
                   | None => lines
                   end in
      for_each lines (fun line => emit (Print (Text.strip line))) ;;
      mret None
  | None => mret None
  end.

Definition undo (args : list string) : M Shell (option (list string)) :=
  s ← get;
  match last_undo s with
  | Some action =>
      on_tree (run_undo action) ;;
      s ← get;
      match hist_file s with
      | Some [] | None => mret tt
      | Some lines => modify (set_hist_file (Some (removelast lines)))
      end ;;
      modify (set_last_undo None) ;;
      mret None
  | None =>
      emit (Print "No action to undo") ;;
      mret None
  end.

Definition exit_cmd (args : list string) : M Shell (option (list string)) :=
  raise SystemExit "".

(** [self._commands.get(command)] *)
Definition commands (command : string)
    : option (list string -> M Shell (option (list string))) :=
  if bool_decide (command = "ls") then Some ls
  else if bool_decide (command = "cd") then Some cd
  else if bool_decide (command = "cat") then Some cat
  else if bool_decide (command = "cp") then Some cp
  else if bool_decide (command = "mv") then Some mv
  else if bool_decide (command = "rm") then Some rm
  else if bool_decide (command = "grep") then Some grep
  else if bool_decide (command = "history") then Some history
  else if bool_decide (command = "undo") then Some undo
  else if bool_decide (command = "exit") then Some exit_cmd
  else None.

End Handlers.

(** ** [Shell.run] and [Shell.__init__] *)

Section Run.

Variable re_compile : string -> bool -> option (string -> bool).

(** The body of the [try] of [run]: dispatch, then commit. *)
Definition execute (cmd : string) : M Shell unit :=
  parts ← match Shlex.split cmd with
          | Some parts => mret parts
          | None => raise ValueError "No closing quotation"
          end;
  match parts with
  | [] => raise IndexError "list index out of range"
  | command :: args =>
      match commands re_compile command with
      | None => raise ValueError ("Unknown command: " +:+ command)
      | Some cmd_func =>
          new_dir ← cmd_func args;
          match new_dir with
          | Some d => modify (set_current_dir (Path.resolve d))
          | None => mret tt
          end ;;
          emit (LogInfo ("OK: " +:+ cmd)) ;;
          modify (fun s => set_global_counter (global_counter s + 1) s) ;;
          modify (fun s => set_hist_file
                             (Some (default [] (hist_file s)
                                    ++ [hist_line (global_counter s) cmd])) s) ;;
          modify (fun s => set_counter_file (Holds (Text.str (global_counter s))) s)
      end
  end.

(** One command line through the [try] and its [except] clauses: [true]
    to go on, [false] after [exit]. *)
Definition dispatch (cmd : string) : M Shell bool :=
  emit (LogInfo cmd) ;;
  try_except (execute cmd ;; mret true)
    (fun e => bool_decide (exn_kind e = SystemExit) || is_exception e)
    (fun e =>
       if bool_decide (exn_kind e = SystemExit) then
         emit (LogInfo "Exiting mini-shell.") ;; mret false
       else
         emit (PrintErr ("Error: " +:+ exn_msg e)) ;;
         emit (LogError ("ERROR: " +:+ exn_msg e)) ;;
         mret true).

(** The [while True] loop of [run]; every iteration reads a line, so
    [fuel] above the number of lines waiting is never used up. *)
Fixpoint run_loop (fuel : nat) : M Shell unit :=
  match fuel with
  | O => raise Diverges "run"
  | S fuel' =>
      s ← get;
      line ← try_except (Some <$> input (Path.show (current_dir s) +:+ "$ "))
                        (fun e => bool_decide (exn_kind e = EOFError))
                        (fun _ => emit (Print (String "010" "Exiting mini-shell.")) ;;
                                  mret None);
      match line with
      | None => mret tt
      | Some cmd =>
          if bool_decide (Text.strip cmd = "") then run_loop fuel'
          else
            go_on ← dispatch cmd;
            if go_on : bool then run_loop fuel' else mret tt
      end
  end.

Definition run : M Shell unit :=
  emit (Print "Mini-shell started. Type 'exit' to quit.") ;;
  s ← get;
  run_loop (S (length (stdin s))).

End Run.

(** What the process finds when it starts. *)
Record Env := mkEnv {
  env_cwd : list string;                 (* [pathlib.Path.cwd()] *)
  env_home : list string;                (* [pathlib.Path.home()] *)
  env_tree : node;
  env_hist : disk_file (list string);    (* the history file, by lines *)
  env_counter : disk_file string;        (* the counter file *)
  env_stdin : list string
}.

(** [try: int(...) except ValueError: pass] over the non-blank lines. *)
Definition leading_int (line : string) : option Z :=
  Text.py_int (Text.strip (Text.before "." line)).

Definition history_nums (lines : list string) : list Z :=
  omap (fun line => if bool_decide (Text.strip line = "") then None
                    else leading_int line) lines.

(** [max(nums)] of a list that is not empty. *)
Definition max_of (n : Z) (nums : list Z) : Z := foldl Z.max n nums.

(** The counter recovery of [__init__]: [Raise] where the constructor
    raises. *)
Definition recover (hist : disk_file (list string)) (counter : disk_file string)
    : result Z :=
  let from_history :=
    match hist with
    | Absent => Ok 0
    | NoAccess => Raise (Exn PermissionError "[Errno 13] Permission denied")
    | Undecodable => Raise (Exn UnicodeDecodeError "'utf-8' codec can't decode")
    | Holds lines =>
        match history_nums lines with
        | n :: nums => Ok (max_of n nums)
        | [] => Ok 0
        end
    end in
  match from_history with
  | Raise e => Raise e
  | Ok global_counter =>
      match counter with
      | Absent => Ok global_counter
      | NoAccess => Raise (Exn PermissionError "[Errno 13] Permission denied")
      | Undecodable => Ok global_counter
      | Holds text =>
          match Text.py_int (Text.strip text) with
          | Some cnt => Ok (Z.max global_counter cnt)
          | None => Ok global_counter
          end
      end
  end.

Section Init.

(** [TRASH_DIR] of the constants module. *)
Variable TRASH_DIR : string.

(** [Shell.__init__] *)
Definition init (env : Env) : result Shell :=
  let trash := Path.join (env_home env) TRASH_DIR in
  match Os.mkdir_exist_ok trash (env_tree env) with
  | (Raise e, _) => Raise e
  | (Ok _, t) =>
      match recover (env_hist env) (env_counter env) with
      | Raise e => Raise e
      | Ok n =>
          Ok (mkShell (env_cwd env) trash
                      (match env_hist env with Holds lines => Some lines | _ => None end)
                      (env_counter env) n None (env_home env) t (env_stdin env) [])
      end
  end.

End Init.

(** ** The commit of [run], spelled out *)

(** The session after [e] has been printed or logged. *)
Definition logged (e : event) (s : Shell) : Shell := set_output (output s ++ [e]) s.

(** What lines 84 to 92 of [run] make of the session [s] a handler left
    when it returned [new_dir]. *)
Definition committed (cmd : string) (new_dir : option (list string)) (s : Shell) : Shell :=
  let s1 := match new_dir with
            | Some d => set_current_dir (Path.resolve d) s
            | None => s
            end in
  let n := global_counter s1 + 1 in
  mkShell (current_dir s1) (trash_dir s1)
          (Some (default [] (hist_file s1) ++ [hist_line n cmd]))
          (Holds (Text.str n)) n (last_undo s1) (home s1) (tree s1) (stdin s1)
          (output s1 ++ [LogInfo ("OK: " +:+ cmd)]).

(** ** A small world to run the model on *)

Module Demo.

(** [/tmp/file.txt], the empty directory [/tmp/w], and the empty trash
    [/home/u/.trash]. *)
Definition world : node :=
  Dir (<["tmp" := Dir (<["file.txt" := File (Utf8 "hello")]> (<["w" := Dir ∅]> ∅))]>
       (<["home" := Dir {["u" := Dir {[".trash" := Dir ∅]}]}]> ∅)).

Definition trash : list string := ["home"; "u"; ".trash"].

(** A fresh session in [/tmp] with [lines] waiting on the standard input. *)
Definition shell (lines : list string) : Shell :=
  mkShell ["tmp"] trash None Absent 0 None ["home"; "u"] world lines [].

(** A regular expression engine for literal patterns. *)
Fixpoint occurs (pattern line : string) : bool :=
  String.prefix pattern line
  || match line with
     | String _ line' => occurs pattern line'
     | EmptyString => false
     end.

Definition re_compile (pattern : string) (ignore_case : bool)
    : option (string -> bool) :=
  Some (if ignore_case
        then fun line => occurs (Text.lower pattern) (Text.lower line)
        else occurs pattern).

End Demo.

(** ** The shape of the history file *)

(** The history file holds the lines of [entries], numbered in strictly
    increasing order by numbers the counter has reached. *)
Definition records (entries : list (Z * string)) (s : Shell) : Prop :=
  default [] (hist_file s) = map (fun e => hist_line e.1 e.2) entries
  /\ StronglySorted Z.lt entries.*1
  /\ Forall (fun n => n <= global_counter s) entries.*1.

Definition well_formed (s : Shell) : Prop := exists entries, records entries s.

(** ** Notions the properties are stated with *)

(** [keeps f m]: running [m] never changes the component [f] of the
    session, whether it returns or raises. *)
Definition keeps {A B} (f : Shell -> B) (m : M Shell A) : Prop :=
  forall s, f (snd (m s)) = f s.


(** A session whose descriptor points at a trash entry that is gone. *)
Definition stale_shell : Shell :=
  set_last_undo (Some (UndoMove (Demo.trash ++ ["gone"]) ["tmp"; "gone"])) (Demo.shell []).










(** [/tmp/file.txt] next to a file that may not be read and, in a
    subdirectory, bytes that are not UTF-8 and another text. *)
Definition grep_world : node :=
  Dir {["tmp" :=
          Dir (<["file.txt" := File (Utf8 "hello")]>
               (<["secret" := File (Locked [])]>
                (<["sub" := Dir (<["blob" := File (Garbled [Byte.xff])]>
                                 {["note" := File (Utf8 "oh hello")]})]> ∅)))]}.

Definition grep_shell : Shell :=
  mkShell ["tmp"] Demo.trash None Absent 0 None ["home"; "u"] grep_world [] [].

(** The name the naming loop of [rm] tries at its [i]-th turn. *)
Definition slot_name (base_name : string) (i : Z) : string :=
  base_name +:+ "_" +:+ Text.str i.

(** Two files of the same name, and a trash that already holds that name. *)
Definition twin_world : node :=
  Dir (<["tmp" := Dir (<["file.txt" := File (Utf8 "hello")]>
                       (<["w" := Dir {["file.txt" := File (Utf8 "other")]}]> ∅))]>
       (<["home" := Dir {["u" := Dir {[".trash" := Dir ∅]}]}]> ∅)).

Definition twin_shell : Shell :=
  mkShell ["tmp"] Demo.trash None Absent 0 None ["home"; "u"] twin_world [] [].

(** The session of [twin_shell] once [/tmp/file.txt] is in the trash. *)
Definition staged_once : Shell := snd (stage ["tmp"; "file.txt"] twin_shell).

(** The session of [Demo.shell] after [cd w], and after [mv ../w ../w2]
    typed there. *)
Definition inside_w : Shell := snd (dispatch Demo.re_compile "cd w" (Demo.shell [])).

Definition moved_w : Shell := snd (dispatch Demo.re_compile "mv ../w ../w2" inside_w).

(** [extends t t']: [t'] holds every regular file of [t], with the content
    it has there, and every directory of [t]. *)
Definition extends (t t' : node) : Prop :=
  forall q,
    match Tree.lookup q t with
    | Some (File d) => Tree.lookup q t' = Some (File d)
    | Some (Dir _) => Tree.is_dir_node (Tree.lookup q t') = true
    | None => True
    end.

(** The session with what it has printed and logged left out. *)
Definition silent (s : Shell) : Shell := set_output [] s.



(** The greeting of [run] and its prompt. *)
Definition banner : event := Print "Mini-shell started. Type 'exit' to quit.".

Definition prompt (s : Shell) : event := Prompt (Path.show (current_dir s) +:+ "$ ").

(** A machine whose home directory has no trash yet, with the files a
    session of two commands has left. *)
Definition bare_env : Env :=
  mkEnv ["tmp"] ["home"; "u"]
        (Dir (<["tmp" := Dir ∅]> {["home" := Dir {["u" := Dir ∅]}]}))
        (Holds ["1. ls"; "2. cd /"]) (Holds "2") [].

(** [twin_shell] with a [Y] waiting on the standard input. *)
Definition twin_shell_y : Shell := set_stdin ["Y"] twin_shell.

(** * Properties *)

(** ** Text and tokens on examples *)

Example py_int_plain : Text.py_int " 42 " = Some 42.
Proof. reflexivity. Qed.

Example py_int_signed : Text.py_int "-1_000" = Some (-1000).
Proof. reflexivity. Qed.

Example py_int_rejects : Text.py_int "4 2" = None /\ Text.py_int "_1" = None
                         /\ Text.py_int "" = None /\ Text.py_int "1__0" = None.
Proof. repeat split; reflexivity. Qed.

Example lower_yes : Text.lower "Y" = "y" /\ Text.lower "No" = "no".
Proof. split; reflexivity. Qed.

Example str_seq : Text.str 12 = "12" /\ Text.str 0 = "0".
Proof. split; vm_compute; reflexivity. Qed.

Example shlex_quotes :
  Shlex.split "rm -r  'a b' c\ d" = Some ["rm"; "-r"; "a b"; "c d"].
Proof. reflexivity. Qed.

Example shlex_open_quote : Shlex.split "rm 'a" = None.
Proof. reflexivity. Qed.

Example path_join :
  Path.join ["tmp"] "a/./b//../c/" = ["tmp"; "a"; "b"; ".."; "c"]
  /\ Path.join ["tmp"] "/etc" = ["etc"].
Proof. split; reflexivity. Qed.

(** ** The tree *)

Section TreeFacts.

Implicit Types (t n : node) (p q r : list string) (v : option node) (c : string).

Lemma lookup_app p r t :
  Tree.lookup (p ++ r) t = Tree.lookup p t ≫= Tree.lookup r.
Proof.
  revert t. induction p as [|c p IH]; intros t; simpl; [done|].
  destruct t as [d|es]; [done|].
  destruct (es !! c) as [ch|]; simpl; [apply IH | done].
Qed.

Lemma lookup_file_below p c r t d :
  Tree.lookup p t = Some (File d) -> Tree.lookup (p ++ c :: r) t = None.
Proof. intros H. rewrite lookup_app, H. done. Qed.

Lemma lookup_prefix_dir p c r t :
  is_Some (Tree.lookup (p ++ c :: r) t) -> Tree.is_dir_node (Tree.lookup p t) = true.
Proof.
  rewrite lookup_app. destruct (Tree.lookup p t) as [[d|es]|]; simpl; [|done|];
    intros [x Hx]; discriminate.
Qed.

Lemma lookup_cons c p es :
  Tree.lookup (c :: p) (Dir es) = es !! c ≫= Tree.lookup p.
Proof. done. Qed.

Lemma update_cons c p v es :
  p <> [] ->
  Tree.update (c :: p) v (Dir es)
  = match es !! c with
    | Some ch => Dir (<[c := Tree.update p v ch]> es)
    | None => Dir es
    end.
Proof. by destruct p. Qed.

(** Removing an entry creates nothing. *)
Lemma lookup_update_none p q t :
  Tree.lookup q t = None -> Tree.lookup q (Tree.update p None t) = None.
Proof.
  revert q t. induction p as [|c p IH]; intros q t Hq; [done|].
  destruct t as [d|es]; [by destruct p|].
  destruct q as [|c' q]; [done|]. simpl in Hq.
  destruct p as [|c2 p].
  - simpl. destruct (decide (c = c')) as [->|Hne].
    + by rewrite lookup_partial_alter_eq.
    + by rewrite lookup_partial_alter_ne.
  - rewrite update_cons by done. destruct (es !! c) as [ch|] eqn:Hc; [|done].
    simpl. destruct (decide (c = c')) as [->|Hne].
    + rewrite lookup_insert_eq. simpl. apply IH. by rewrite Hc in Hq.
    + by rewrite lookup_insert_ne.
Qed.

(** The entry put at [p] is found there, where the parent is a directory. *)
Lemma lookup_update_eq p c v t :
  Tree.is_dir_node (Tree.lookup p t) = true ->
  Tree.lookup (p ++ [c]) (Tree.update (p ++ [c]) v t) = v.
Proof.
  revert t. induction p as [|c' p IH]; intros t Hd.
  - simpl in *. destruct t as [d|es]; [done|]. simpl.
    rewrite lookup_partial_alter_eq. by destruct v.
  - simpl in Hd. destruct t as [d|es]; [done|].
    destruct (es !! c') as [ch|] eqn:Hc; [|done]. simpl in Hd.
    change ((c' :: p) ++ [c]) with (c' :: (p ++ [c])).
    rewrite update_cons by (by destruct p). rewrite Hc.
    cbn [Tree.lookup]. rewrite lookup_insert_eq. simpl. by apply IH.
Qed.

Lemma lookup_update_gone p t :
  p <> [] -> Tree.lookup p (Tree.update p None t) = None.
Proof.
  revert t. induction p as [|c p IH]; intros t Hne; [done|].
  destruct t as [d|es]; [by destruct p|].
  destruct p as [|c2 p].
  - simpl. by rewrite lookup_partial_alter_eq.
  - rewrite update_cons by done. destruct (es !! c) as [ch|] eqn:Hc.
    + cbn [Tree.lookup]. rewrite lookup_insert_eq. simpl. by apply IH.
    + simpl. by rewrite Hc.
Qed.

(** Paths that branch off [p] are not affected by an update at [p]. *)
Lemma lookup_update_ne p q v t :
  ~ p `prefix_of` q -> ~ q `prefix_of` p ->
  Tree.lookup q (Tree.update p v t) = Tree.lookup q t.
Proof.
  revert q t. induction p as [|c p IH]; intros q t Hpq Hqp.
  - destruct Hpq. apply prefix_nil.
  - destruct q as [|c' q]; [destruct Hqp; apply prefix_nil|].
    destruct t as [d|es]; [by destruct p|].
    destruct (decide (c = c')) as [->|Hne].
    + destruct p as [|c2 p].
      * destruct Hpq. by apply prefix_cons, prefix_nil.
      * rewrite update_cons by done. destruct (es !! c') as [ch|] eqn:Hc; [|done].
        cbn [Tree.lookup]. rewrite lookup_insert_eq, Hc. simpl.
        apply IH; intros H; [apply Hpq | apply Hqp]; by apply prefix_cons.
    + destruct p as [|c2 p].
      * simpl. by rewrite lookup_partial_alter_ne.
      * rewrite update_cons by done. destruct (es !! c) as [ch|] eqn:Hc; [|done].
        cbn [Tree.lookup]. by rewrite lookup_insert_ne.
Qed.

Lemma update_update p v w t :
  p <> [] -> Tree.update p v (Tree.update p w t) = Tree.update p v t.
Proof.
  revert t. induction p as [|c p IH]; intros t Hne; [done|].
  destruct t as [d|es]; [by destruct p|].
  destruct p as [|c2 p].
  - simpl. f_equal. apply map_eq. intros i.
    destruct (decide (c = i)) as [->|Hi].
    + by rewrite !lookup_partial_alter_eq.
    + by rewrite !lookup_partial_alter_ne.
  - rewrite (update_cons c (c2 :: p) w) by done.
    destruct (es !! c) as [ch|] eqn:Hc.
    + rewrite !update_cons by done. rewrite lookup_insert_eq, Hc.
      rewrite IH by done. by rewrite insert_insert_eq.
    + rewrite update_cons by done. by rewrite Hc.
Qed.

Lemma update_id p t :
  Tree.update p (Tree.lookup p t) t = t.
Proof.
  revert t. induction p as [|c p IH]; intros t; [done|].
  destruct t as [d|es]; [by destruct p|].
  destruct p as [|c2 p].
  - simpl. f_equal. apply map_eq. intros i.
    destruct (decide (c = i)) as [->|Hi].
    + rewrite lookup_partial_alter_eq. by destruct (es !! i).
    + by rewrite lookup_partial_alter_ne.
  - rewrite update_cons by done. rewrite lookup_cons.
    destruct (es !! c) as [ch|] eqn:Hc; [|done].
    cbn [mbind option_bind]. rewrite IH. by rewrite insert_id.
Qed.

(** Replacing something that is not a directory by something that is not
    a directory leaves the directories where they are. *)
Lemma update_keeps_dirs p v t q :
  Tree.is_dir_node (Tree.lookup p t) = false -> Tree.is_dir_node v = false ->
  Tree.is_dir_node (Tree.lookup q (Tree.update p v t))
  = Tree.is_dir_node (Tree.lookup q t).
Proof.
  revert t q. induction p as [|c p IH]; intros t q Hp Hv.
  - simpl in *. destruct t as [d|es]; [|done].
    destruct v as [[d'|es']|]; simpl in *; try done. by destruct q.
  - destruct t as [d|es]; [by destruct p|].
    destruct q as [|c' q]; [by destruct p as [|? ?]; simpl; [|destruct (es !! c)]|].
    destruct p as [|c2 p].
    + simpl in *. destruct (decide (c = c')) as [->|Hne].
      * rewrite lookup_partial_alter_eq.
        destruct (es !! c') as [[d|es1]|], v as [[d'|es2]|]; simpl in *;
          try done; by destruct q.
      * by rewrite lookup_partial_alter_ne.
    + rewrite update_cons by done. cbn [Tree.lookup] in Hp.
      destruct (es !! c) as [ch|] eqn:Hc; [|done].
      cbn [Tree.lookup]. destruct (decide (c = c')) as [->|Hne].
      * rewrite lookup_insert_eq, Hc. cbn [mbind option_bind] in *. by apply IH.
      * by rewrite lookup_insert_ne.
Qed.

Lemma canon_from_ext t t' acc p :
  (forall q, Tree.is_dir_node (Tree.lookup q t') = Tree.is_dir_node (Tree.lookup q t)) ->
  Tree.canon_from t' acc p = Tree.canon_from t acc p.
Proof.
  intros H. revert acc. induction p as [|c p IH]; intros acc; simpl; [done|].
  rewrite H. destruct (Tree.is_dir_node (Tree.lookup acc t)); [apply IH | done].
Qed.

End TreeFacts.

(** ** One command through [run] *)

Ltac munfold :=
  unfold mbind, M_bind, mret, M_ret, fmap, M_fmap, get, modify, raise, emit,
    on_tree, zoom, try_except in *.

Section RunFacts.
Variable re : string -> bool -> option (string -> bool).

Lemma execute_spec cmd command args h s :
  Shlex.split cmd = Some (command :: args) ->
  commands re command = Some h ->
  execute re cmd s
  = match h args s with
    | (Ok new_dir, s1) => (Ok tt, committed cmd new_dir s1)
    | (Raise e, s1) => (Raise e, s1)
    end.
Proof.
  intros Hs Hc. unfold execute. munfold. rewrite Hs, Hc.
  destruct (h args s) as [[nd|e] s1]; [|done].
  destruct nd as [d|]; reflexivity.
Qed.

Lemma dispatch_spec cmd command args h s :
  Shlex.split cmd = Some (command :: args) ->
  commands re command = Some h ->
  dispatch re cmd s
  = match h args (logged (LogInfo cmd) s) with
    | (Ok new_dir, s1) => (Ok true, committed cmd new_dir s1)
    | (Raise e, s1) =>
        if bool_decide (exn_kind e = SystemExit)
        then (Ok false, logged (LogInfo "Exiting mini-shell.") s1)
        else if is_exception e
             then (Ok true, logged (LogError ("ERROR: " +:+ exn_msg e))
                              (logged (PrintErr ("Error: " +:+ exn_msg e)) s1))
             else (Raise e, s1)
    end.
Proof.
  intros Hs Hc. unfold dispatch.
  unfold mbind at 1. unfold M_bind at 1. unfold emit at 1. unfold modify at 1.
  unfold try_except. unfold mbind at 1. unfold M_bind at 1.
  rewrite (execute_spec _ _ _ _ _ Hs Hc). fold (logged (LogInfo cmd) s).
  destruct (h args (logged (LogInfo cmd) s)) as [[nd|e] s1]; [done|].
  destruct (bool_decide (exn_kind e = SystemExit)) eqn:He; simpl; [done|].
  destruct (is_exception e); done.
Qed.
End RunFacts.
(** ** What the handlers leave alone *)

Section Frame.

Context {B : Type} (f : Shell -> B).
Hypothesis f_output : forall o s, f (set_output o s) = f s.
Hypothesis f_stdin : forall l s, f (set_stdin l s) = f s.

Lemma keeps_ret {A} (a : A) : keeps f (mret a).
Proof. by intros s. Qed.

Lemma keeps_raise {A} k msg : keeps f (raise (A := A) k msg).
Proof. by intros s. Qed.

Lemma keeps_get : keeps f get.
Proof. by intros s. Qed.

Lemma keeps_bind {A C} (m : M Shell A) (k : A -> M Shell C) :
  keeps f m -> (forall a, keeps f (k a)) -> keeps f (m ≫= k).
Proof.
  intros Hm Hk s. unfold mbind, M_bind. specialize (Hm s).
  destruct (m s) as [[a|e] s1]; simpl in *; [|done].
  by rewrite Hk.
Qed.

Lemma keeps_emit e : keeps f (emit e).
Proof. intros s. apply f_output. Qed.

Lemma keeps_input prompt : keeps f (input prompt).
Proof.
  intros s. unfold input. destruct (stdin s); simpl;
    by rewrite ?f_stdin, ?f_output.
Qed.

Lemma keeps_for_each {A} (l : list A) body :
  (forall x, keeps f (body x)) -> keeps f (for_each l body).
Proof.
  intros H. induction l as [|x l IH]; simpl.
  - apply keeps_ret.
  - apply keeps_bind; [apply H | by intros _].
Qed.

Lemma keeps_on_tree {A} (m : M node A) :
  (forall t s, f (set_tree t s) = f s) -> keeps f (on_tree m).
Proof.
  intros Ht s. unfold on_tree, zoom. destruct (m (tree s)); simpl. apply Ht.
Qed.

Lemma keeps_set_last_undo u :
  (forall u s, f (set_last_undo u s) = f s) -> keeps f (modify (set_last_undo u)).
Proof. intros Hu s. apply Hu. Qed.

End Frame.

Ltac keeps_step :=
  first
    [ apply keeps_ret | apply keeps_raise | apply keeps_get
    | apply keeps_emit; solve [auto] | apply keeps_input; solve [auto]
    | apply keeps_on_tree; solve [auto]
    | apply keeps_set_last_undo; solve [auto]
    | apply keeps_for_each; intros
    | apply keeps_bind; [|intros]
    | match goal with
      | |- keeps _ (match ?x with _ => _ end) => destruct x
      | |- keeps _ (let '(_, _) := ?x in _) => destruct x
      end ].

Ltac keeps_tac := repeat keeps_step.

Section HandlerFrames.

Variable re : string -> bool -> option (string -> bool).

Context {B : Type} (f : Shell -> B).
Hypothesis f_output : forall o s, f (set_output o s) = f s.
Hypothesis f_stdin : forall l s, f (set_stdin l s) = f s.

Lemma keeps_ls args : keeps f (ls args).
Proof. unfold ls. keeps_tac. Qed.

Lemma keeps_cd args : keeps f (cd args).
Proof. unfold cd. keeps_tac. Qed.

Lemma keeps_history args : keeps f (history args).
Proof. unfold history. keeps_tac. Qed.

Lemma keeps_exit_cmd args : keeps f (exit_cmd args).
Proof. unfold exit_cmd. keeps_tac. Qed.

Lemma keeps_search_file search p d : keeps f (search_file search p d).
Proof. unfold search_file. keeps_tac. Qed.

Lemma keeps_grep args : keeps f (grep re args).
Proof.
  unfold grep. keeps_tac; try (apply keeps_search_file).
Qed.

Hypothesis f_tree : forall t s, f (set_tree t s) = f s.

Lemma keeps_cat args : keeps f (cat args).
Proof. unfold cat. keeps_tac. Qed.

Hypothesis f_undo : forall u s, f (set_last_undo u s) = f s.

Lemma keeps_cp args : keeps f (cp args).
Proof. unfold cp. keeps_tac. Qed.

Lemma keeps_mv args : keeps f (mv args).
Proof. unfold mv. keeps_tac. Qed.

Lemma keeps_stage path : keeps f (stage path).
Proof. unfold stage. keeps_tac. Qed.

Lemma keeps_rm_one recursive arg : keeps f (rm_one recursive arg).
Proof. unfold rm_one. keeps_tac. Qed.

Lemma keeps_rm args : keeps f (rm args).
Proof. unfold rm. keeps_tac; try apply keeps_rm_one. Qed.

End HandlerFrames.
(** ** [undo] *)

Section UndoFacts.

Implicit Types (s : Shell) (u : undo_action).

Lemma undo_none args s :
  last_undo s = None ->
  undo args s = (Ok None, logged (Print "No action to undo") s).
Proof. intros H. unfold undo. munfold. by rewrite H. Qed.

Lemma undo_raises args s u e t' :
  last_undo s = Some u -> run_undo u (tree s) = (Raise e, t') ->
  undo args s = (Raise e, set_tree t' s).
Proof. intros H Hu. unfold undo. munfold. by rewrite H, Hu. Qed.

Lemma undo_returns args s u t' :
  last_undo s = Some u -> run_undo u (tree s) = (Ok tt, t') ->
  undo args s
  = (Ok None,
     set_last_undo None (set_hist_file (@removelast string <$> hist_file s) (set_tree t' s))).
Proof.
  intros H Hu. unfold undo. munfold. rewrite H, Hu. simpl.
  destruct (hist_file s) as [[|l ls]|] eqn:Hh; simpl; try done.
  all: destruct s; simpl in *; by subst.
Qed.

(** The platform primitives of the model are all or nothing. *)
Lemma rename_raises src dst t e t' :
  Os.rename src dst t = (Raise e, t') -> t' = t /\ is_exception e = true.
Proof.
  unfold Os.rename. intros H.
  repeat (case_match; simplify_eq; try done).
Qed.

Lemma move_raises src dst t e t' :
  Os.move src dst t = (Raise e, t') -> t' = t /\ is_exception e = true.
Proof.
  unfold Os.move, try_except, Os.fail. intros H.
  repeat (case_match; simplify_eq; try done);
    try (by eapply rename_raises);
    match goal with
    | H : Os.rename _ _ _ = (Raise _, _) |- _ =>
        apply rename_raises in H; destruct H; by subst
    end.
Qed.

Lemma run_undo_raises u t e t' :
  run_undo u t = (Raise e, t') -> t' = t /\ is_exception e = true.
Proof.
  destruct u as [src dst|dst|dst]; simpl.
  - apply move_raises.
  - unfold Os.rmtree. intros H. repeat (case_match; simplify_eq; try done).
  - unfold Os.remove. intros H. repeat (case_match; simplify_eq; try done).
Qed.

Lemma is_exception_not_exit e :
  is_exception e = true -> bool_decide (exn_kind e = SystemExit) = false.
Proof.
  unfold is_exception. intros H%bool_decide_eq_true.
  apply bool_decide_eq_false. tauto.
Qed.

End UndoFacts.
(** ** Claims about [undo] and the confirmation of [rm] *)

Section RmFacts.

Lemma rm_recursive arg args :
  rm ("-r" :: arg :: args) = (for_each (arg :: args) (rm_one true) ;; mret None).
Proof. reflexivity. Qed.

Lemma rm_plain arg args :
  arg <> "-r" ->
  rm (arg :: args) = (for_each (arg :: args) (rm_one false) ;; mret None).
Proof. intros H. unfold rm. by rewrite (bool_decide_eq_false_2 _ H). Qed.

Lemma is_dir_exists t p : Tree.is_dir t p = true -> Tree.exists_ t p = true.
Proof.
  unfold Tree.exists_, Tree.is_dir. intros H. apply bool_decide_eq_true.
  destruct (Tree.stat t p); [eauto | done].
Qed.

Lemma is_file_exists t p : Tree.is_file t p = true -> Tree.exists_ t p = true.
Proof.
  unfold Tree.exists_, Tree.is_file. intros H. apply bool_decide_eq_true.
  destruct (Tree.stat t p); [eauto | done].
Qed.

Lemma is_file_not_dir t p : Tree.is_file t p = true -> Tree.is_dir t p = false.
Proof.
  unfold Tree.is_dir, Tree.is_file. by destruct (Tree.stat t p) as [[d|es]|].
Qed.

(** A declined prompt: the operand is skipped. *)
Lemma rm_one_declined arg s answer rest :
  arg <> ".." ->
  Tree.is_dir (tree s) (Path.join (current_dir s) arg) = true ->
  Path.resolve (Path.join (current_dir s) arg) <> [] ->
  stdin s = answer :: rest ->
  Text.lower answer <> "y" ->
  rm_one true arg s
  = (Ok tt, set_stdin rest
              (logged (Prompt ("rm: remove directory '" +:+ arg +:+ "'? (y/n) ")) s)).
Proof.
  intros Hdd Hdir Hroot Hin Hans. unfold rm_one.
  rewrite (bool_decide_eq_false_2 _ Hdd). munfold.
  rewrite (is_dir_exists _ _ Hdir), Hdir, (bool_decide_eq_false_2 _ Hroot).
  cbn [negb andb]. unfold input. rewrite Hin.
  by rewrite (bool_decide_eq_false_2 _ Hans).
Qed.

End RmFacts.

Section UndoClaims.

Variable re : string -> bool -> option (string -> bool).

(** C2 (as amended).  With no pending undo descriptor the [undo] handler
    returns normally, prints "No action to undo" and changes nothing else
    of the session, the history file included.  [run] then commits the
    command like any other: the history file keeps its lines and gains
    the line of the [undo] itself, and the counter advances by one. *)
Theorem undo_without_descriptor cmd args s :
  Shlex.split cmd = Some ("undo" :: args) ->
  last_undo s = None ->
  undo args s = (Ok None, logged (Print "No action to undo") s)
  /\ exists s',
      dispatch re cmd s = (Ok true, s')
      /\ hist_file s'
         = Some (default [] (hist_file s) ++ [hist_line (global_counter s + 1) cmd])
      /\ global_counter s' = global_counter s + 1
      /\ last_undo s' = None
      /\ tree s' = tree s
      /\ output s' = output s ++ [LogInfo cmd; Print "No action to undo";
                                  LogInfo ("OK: " +:+ cmd)].
Proof.
  intros Hs Hu. split; [by apply undo_none|].
  eexists. split.
  - rewrite (dispatch_spec re cmd "undo" args undo s Hs eq_refl).
    rewrite undo_none by done. reflexivity.
  - simpl. rewrite Hu, <- !app_assoc. done.
Qed.

(** C6.  When the inverse action of the pending descriptor fails, [run]
    reports the error and goes on; the descriptor stays registered, and
    the history file, the counter and the file system are as before. *)
Theorem undo_failure_keeps_descriptor cmd args s u e t' :
  Shlex.split cmd = Some ("undo" :: args) ->
  last_undo s = Some u ->
  run_undo u (tree s) = (Raise e, t') ->
  exists s',
    dispatch re cmd s = (Ok true, s')
    /\ last_undo s' = Some u
    /\ hist_file s' = hist_file s
    /\ global_counter s' = global_counter s
    /\ counter_file s' = counter_file s
    /\ tree s' = tree s
    /\ output s' = output s ++ [LogInfo cmd; PrintErr ("Error: " +:+ exn_msg e);
                                LogError ("ERROR: " +:+ exn_msg e)].
Proof.
  intros Hs Hu Hr. destruct (run_undo_raises _ _ _ _ Hr) as [-> He].
  eexists. split.
  - rewrite (dispatch_spec re cmd "undo" args undo s Hs eq_refl).
    rewrite (undo_raises args _ u e (tree s)) by done.
    rewrite (is_exception_not_exit e He), He. reflexivity.
  - simpl. rewrite <- !app_assoc. done.
Qed.

(** C9.  [rm -r] on a directory whose prompt is answered with something
    other than "y" or "Y" moves nothing and registers nothing, and [run]
    commits the command: the counter advances and the line is recorded. *)
Theorem rm_declined_is_committed cmd arg s answer rest :
  Shlex.split cmd = Some ["rm"; "-r"; arg] ->
  arg <> ".." ->
  Tree.is_dir (tree s) (Path.join (current_dir s) arg) = true ->
  Path.resolve (Path.join (current_dir s) arg) <> [] ->
  stdin s = answer :: rest ->
  Text.lower answer <> "y" ->
  exists s',
    dispatch re cmd s = (Ok true, s')
    /\ tree s' = tree s
    /\ last_undo s' = last_undo s
    /\ global_counter s' = global_counter s + 1
    /\ hist_file s'
       = Some (default [] (hist_file s) ++ [hist_line (global_counter s + 1) cmd])
    /\ stdin s' = rest.
Proof.
  intros Hs Hdd Hdir Hroot Hin Hans.
  assert (Hex : Tree.exists_ (tree s) (Path.join (current_dir s) arg) = true).
  { unfold Tree.exists_, Tree.is_dir in *. apply bool_decide_eq_true.
    destruct (Tree.stat _ _); [eauto | done]. }
  eexists. split.
  - rewrite (dispatch_spec re cmd "rm" ["-r"; arg] rm s Hs eq_refl).
    rewrite rm_recursive. cbn [for_each].
    unfold mbind at 1 2. unfold M_bind at 1 2.
    rewrite (rm_one_declined arg _ answer rest) by done. reflexivity.
  - simpl. done.
Qed.

End UndoClaims.

(** The claim C2 as stated fails on the empty session: the history file has
    a line after [undo] that it did not have before. *)
Lemma undo_without_descriptor_changes_history :
  last_undo (Demo.shell []) = None
  /\ hist_file (snd (dispatch Demo.re_compile "undo" (Demo.shell []))) = Some ["1. undo"]
  /\ hist_file (snd (dispatch Demo.re_compile "undo" (Demo.shell [])))
     <> hist_file (Demo.shell []).
Proof. split; [reflexivity|]. split; [vm_compute; reflexivity | vm_compute; discriminate]. Qed.

Lemma undo_without_descriptor_witness :
  exists s',
    dispatch Demo.re_compile "undo" (Demo.shell []) = (Ok true, s')
    /\ hist_file s' = Some ([] ++ [hist_line (0 + 1) "undo"])
    /\ global_counter s' = 0 + 1
    /\ last_undo s' = None
    /\ tree s' = Demo.world
    /\ output s' = [] ++ [LogInfo "undo"; Print "No action to undo"; LogInfo "OK: undo"].
Proof.
  apply (undo_without_descriptor Demo.re_compile "undo" [] (Demo.shell []));
    reflexivity.
Defined.

Lemma undo_failure_keeps_descriptor_witness :
  exists s',
    dispatch Demo.re_compile "undo" stale_shell = (Ok true, s')
    /\ last_undo s' = last_undo stale_shell
    /\ hist_file s' = None
    /\ global_counter s' = 0
    /\ counter_file s' = Absent
    /\ tree s' = Demo.world
    /\ output s'
       = [] ++ [LogInfo "undo";
                PrintErr ("Error: " +:+ exn_msg (Os.enoent (Demo.trash ++ ["gone"])));
                LogError ("ERROR: " +:+ exn_msg (Os.enoent (Demo.trash ++ ["gone"])))].
Proof.
  apply (undo_failure_keeps_descriptor Demo.re_compile "undo" [] stale_shell
           (UndoMove (Demo.trash ++ ["gone"]) ["tmp"; "gone"])
           (Os.enoent (Demo.trash ++ ["gone"])) Demo.world);
    vm_compute; reflexivity.
Defined.

Lemma rm_declined_is_committed_witness :
  exists s',
    dispatch Demo.re_compile "rm -r w" (Demo.shell ["n"]) = (Ok true, s')
    /\ tree s' = Demo.world
    /\ last_undo s' = None
    /\ global_counter s' = 0 + 1
    /\ hist_file s' = Some ([] ++ [hist_line (0 + 1) "rm -r w"])
    /\ stdin s' = [].
Proof.
  apply (rm_declined_is_committed Demo.re_compile "rm -r w" "w" (Demo.shell ["n"]) "n" []);
    try (vm_compute; reflexivity); vm_compute; discriminate.
Defined.
(** ** The counter and the history file through a command *)

Section Books.

Variable re : string -> bool -> option (string -> bool).









Lemma well_formed_logged e s : well_formed (logged e s) <-> well_formed s.
Proof. done. Qed.




End Books.


(** ** A command that fails *)

Section Failure.

Variable re : string -> bool -> option (string -> bool).




End Failure.


(** ** Reading back the numbers the shell writes *)

Section Numbers.











End Numbers.
(** ** Counter recovery *)

Section Recovery.













(** Where a file cannot be read, the constructor raises. *)
Lemma recover_raises :
  (forall counter, exists e, recover NoAccess counter = Raise e)
  /\ (forall counter, exists e, recover Undecodable counter = Raise e)
  /\ (forall lines, exists e, recover (Holds lines) NoAccess = Raise e).
Proof.
  repeat split; intros; unfold recover; simpl; eauto.
  destruct (history_nums lines); eauto.
Qed.

End Recovery.



Example recover_example :
  recover (Holds ["1. ls"; ""; "7. cd ~"; "junk"]) (Holds " 5 ") = Ok 7
  /\ recover Absent Absent = Ok 0
  /\ recover (Holds ["x"]) (Holds "y") = Ok 0
  /\ recover (Holds ["2. ls"]) Undecodable = Ok 2.
Proof. repeat split; reflexivity. Qed.
(** ** [grep] and the files it cannot read *)

Section Grep.

Variable re : string -> bool -> option (string -> bool).

Lemma set_output_twice o1 o2 s : set_output o2 (set_output o1 s) = set_output o2 s.
Proof. done. Qed.

Lemma set_output_same s : set_output (output s) s = s.
Proof. by destruct s. Qed.

(** A loop whose body only prints. *)
Lemma for_each_prints {A} (l : list A) (body : A -> M Shell unit) (g : A -> list event) s :
  (forall x s', current_dir s' = current_dir s ->
                body x s' = (Ok tt, set_output (output s' ++ g x) s')
                /\ current_dir (set_output (output s' ++ g x) s') = current_dir s) ->
  for_each l body s = (Ok tt, set_output (output s ++ concat (map g l)) s).
Proof.
  intros H. assert (Hc : current_dir s = current_dir s) by done.
  revert Hc. generalize s at 1 3 4 5 as s'.
  induction l as [|x l IH]; intros s' Hc; simpl.
  - by rewrite app_nil_r, set_output_same.
  - unfold mbind, M_bind. destruct (H x s' Hc) as [-> Hc'].
    rewrite IH by done. simpl. by rewrite app_assoc.
Qed.







End Grep.


Example grep_prints_readable_matches :
  output (snd (grep Demo.re_compile ["-r"; "hello"; "."] grep_shell))
  = [Print "file.txt:1:hello"; Print "sub/note:1:oh hello"].
Proof. vm_compute. reflexivity. Qed.
(** ** Resolution of paths *)

Section Canon.

Implicit Types (t : node) (p q r acc : list string) (c : string).

Lemma canon_from_app t acc p r :
  Tree.canon_from t acc (p ++ r)
  = Tree.canon_from t acc p ≫= fun a => Tree.canon_from t a r.
Proof.
  revert acc. induction p as [|c p IH]; intros acc; simpl; [done|].
  destruct (Tree.is_dir_node (Tree.lookup acc t)); [apply IH | done].
Qed.

Lemma canon_snoc t p c :
  Tree.canon t (p ++ [c])
  = Tree.canon t p ≫= fun a =>
      if Tree.is_dir_node (Tree.lookup a t) then Some (Path.step a c) else None.
Proof. unfold Tree.canon. by rewrite canon_from_app. Qed.

Lemma lookup_removelast t p :
  Tree.is_dir_node (Tree.lookup p t) = true ->
  Tree.is_dir_node (Tree.lookup (removelast p) t) = true.
Proof.
  destruct p as [|c p _] using rev_ind; [done|].
  rewrite removelast_last. intros H. apply (lookup_prefix_dir p c []).
  by destruct (Tree.lookup (p ++ [c]) t).
Qed.

(** A path that ends in [".."] names a directory, if anything. *)
Lemma stat_dotdot t p :
  Path.name p = ".." -> Tree.is_file t p = false.
Proof.
  unfold Path.name, Tree.is_file, Tree.stat.
  destruct p as [|c p _] using rev_ind; [done|].
  rewrite last_snoc. simpl. intros ->. rewrite canon_snoc.
  destruct (Tree.canon t p) as [a|]; simpl; [|done].
  destruct (Tree.is_dir_node (Tree.lookup a t)) eqn:Hd; simpl; [|done].
  unfold Path.step. rewrite decide_True by done.
  apply lookup_removelast in Hd.
  by destruct (Tree.lookup (removelast a) t) as [[d|es]|].
Qed.

Lemma is_dir_canon t p :
  Tree.is_dir t p = true ->
  exists P es, Tree.canon t p = Some P /\ Tree.lookup P t = Some (Dir es).
Proof.
  unfold Tree.is_dir, Tree.stat. destruct (Tree.canon t p) as [P|]; simpl; [|done].
  destruct (Tree.lookup P t) as [[d|es]|] eqn:H; try done. eauto.
Qed.

Lemma is_file_canon t p :
  Tree.is_file t p = true ->
  exists P d, Tree.canon t p = Some P /\ Tree.lookup P t = Some (File d).
Proof.
  unfold Tree.is_file, Tree.stat. destruct (Tree.canon t p) as [P|]; simpl; [|done].
  destruct (Tree.lookup P t) as [[d|es]|] eqn:H; try done. eauto.
Qed.

(** What exists in a directory under a given name. *)
Lemma exists_child t trash T es c :
  Tree.canon t trash = Some T -> Tree.lookup T t = Some (Dir es) ->
  Tree.exists_ t (Path.child trash c)
  = if decide (c = "" \/ c = "..") then true else bool_decide (is_Some (es !! c)).
Proof.
  intros HT Hes. unfold Tree.exists_, Path.child, Tree.stat.
  destruct (decide (c = "")) as [->|Hne].
  { rewrite decide_True by auto. rewrite HT. simpl. rewrite Hes.
    apply bool_decide_eq_true. eauto. }
  rewrite canon_snoc, HT. simpl. rewrite Hes. simpl. unfold Path.step.
  destruct (decide (c = "..")) as [->|Hdd].
  - rewrite decide_True by auto. simpl.
    assert (Hd : Tree.is_dir_node (Tree.lookup (removelast T) t) = true).
    { apply lookup_removelast. by rewrite Hes. }
    apply bool_decide_eq_true. by destruct (Tree.lookup (removelast T) t).
  - rewrite decide_False by tauto. simpl. rewrite lookup_app, Hes. simpl.
    by destruct (es !! c).
Qed.

Lemma stat_child t trash T es c :
  Tree.canon t trash = Some T -> Tree.lookup T t = Some (Dir es) ->
  c <> "" -> c <> ".." ->
  Tree.canon t (trash ++ [c]) = Some (T ++ [c])
  /\ Tree.stat t (trash ++ [c]) = es !! c.
Proof.
  intros HT Hes H1 H2. unfold Tree.stat. rewrite canon_snoc, HT. simpl.
  rewrite Hes. simpl. unfold Path.step. rewrite decide_False by done.
  split; [done|]. simpl. rewrite lookup_app, Hes. simpl. by destruct (es !! c).
Qed.

End Canon.

(** ** The naming loop of [rm] *)

Section Slots.

Implicit Types (t : node) (trash : list string) (base : string).

Lemma slot_name_inj base : Inj (=) (=) (slot_name base).
Proof.
  intros i j H. unfold slot_name in H.
  apply (inj (String.app base)) in H. apply (inj (String.app "_")) in H.
  by apply (inj pretty) in H.
Qed.

Lemma has_char_app c s1 s2 :
  Text.has_char c (s1 +:+ s2) = Text.has_char c s1 || Text.has_char c s2.
Proof. induction s1 as [|d s1 IH]; simpl; [done|]. by rewrite IH, orb_assoc. Qed.

Lemma slot_name_plain base i : slot_name base i <> "" /\ slot_name base i <> "..".
Proof.
  assert (H : Text.has_char "_" (slot_name base i) = true).
  { unfold slot_name. rewrite !has_char_app. simpl. by rewrite orb_true_r. }
  split; intros Heq; by rewrite Heq in H.
Qed.

(** The loop returns the first candidate that does not exist, or runs out
    of fuel on candidates that all exist. *)
Lemma free_slot_spec fuel t trash base i cand :
  match free_slot fuel t trash base i cand with
  | Some p =>
      Tree.exists_ t p = false
      /\ (p = cand
          \/ Tree.exists_ t cand = true
             /\ exists k, i <= k < i + Z.of_nat fuel
                  /\ p = Path.child trash (slot_name base k)
                  /\ forall j, i <= j < k ->
                       Tree.exists_ t (Path.child trash (slot_name base j)) = true)
  | None =>
      Tree.exists_ t cand = true
      /\ forall j, i <= j < i + Z.of_nat fuel ->
           Tree.exists_ t (Path.child trash (slot_name base j)) = true
  end.
Proof.
  revert i cand. induction fuel as [|fuel IH]; intros i cand; simpl.
  - destruct (Tree.exists_ t cand) eqn:He; [|auto]. split; [done|]. intros j Hj. lia.
  - destruct (Tree.exists_ t cand) eqn:He; [|auto].
    specialize (IH (i + 1) (Path.child trash (slot_name base i))).
    fold (slot_name base i).
    destruct (free_slot fuel t trash base (i + 1) _) as [p|].
    + destruct IH as [Hp [->|(Hc & k & Hk & -> & Hall)]].
      * split; [done|]. right. split; [done|]. exists i.
        split; [lia|]. split; [done|]. intros j Hj. lia.
      * split; [done|]. right. split; [done|]. exists k.
        split; [lia|]. split; [done|]. intros j Hj.
        destruct (decide (j = i)) as [->|Hne]; [done|]. apply Hall. lia.
    + destruct IH as [Hc Hall]. split; [done|]. intros j Hj.
      destruct (decide (j = i)) as [->|Hne]; [done|]. apply Hall. lia.
Qed.

(** The fuel [rm] gives the loop is enough: a directory of [n] entries
    cannot hold the [n + 1] names the loop has tried by then. *)
Lemma free_slot_total t trash base :
  is_Some (free_slot (slot_bound t trash) t trash base 1 (Path.child trash base)).
Proof.
  pose proof (free_slot_spec (slot_bound t trash) t trash base 1 (Path.child trash base)) as H.
  destruct (free_slot _ _ _ _ _ _) as [p|]; [eauto|]. exfalso.
  destruct H as [_ Hall]. unfold slot_bound in Hall.
  assert (Hstat : forall c, c <> "" -> c <> ".." ->
             Tree.exists_ t (Path.child trash c) = true ->
             exists T es, Tree.canon t trash = Some T /\ Tree.lookup T t = Some (Dir es)).
  { intros c H1 H2. unfold Path.child, Tree.exists_, Tree.stat.
    rewrite decide_False by done. rewrite canon_snoc.
    intros He%bool_decide_eq_true.
    destruct (Tree.canon t trash) as [T|]; simpl in *; [|by destruct He].
    destruct (Tree.lookup T t) as [[d|es]|] eqn:HT; simpl in *;
      try (by destruct He). eauto. }
  destruct (Tree.stat t trash) as [[d|es]|] eqn:Hst.
  - destruct (slot_name_plain base 1) as [H1 H2].
    destruct (Hstat _ H1 H2 (Hall 1 ltac:(lia))) as (T & es & HT & Hes).
    unfold Tree.stat in Hst. rewrite HT in Hst. simpl in Hst. congruence.
  - assert (exists T, Tree.canon t trash = Some T /\ Tree.lookup T t = Some (Dir es))
      as (T & HT & Hes).
    { unfold Tree.stat in Hst. destruct (Tree.canon t trash) as [T|]; [|done]. eauto. }
    set (names := slot_name base <$> (Z.of_nat <$> seq 1 (S (size es)))).
    assert (Hnd : NoDup names).
    { apply NoDup_fmap_2; [apply slot_name_inj|].
      apply NoDup_fmap_2; [apply Nat2Z.inj'|]. apply NoDup_seq. }
    assert (Hin : forall x, x ∈ names -> x ∈ dom es).
    { intros x Hx. apply list_elem_of_fmap in Hx as (i & -> & Hi).
      apply list_elem_of_fmap in Hi as (k & -> & Hk). apply elem_of_seq in Hk.
      specialize (Hall (Z.of_nat k) ltac:(lia)).
      rewrite (exists_child t trash T es) in Hall by done.
      destruct (slot_name_plain base (Z.of_nat k)).
      rewrite decide_False in Hall by tauto.
      apply bool_decide_eq_true in Hall. by apply elem_of_dom. }
    assert (Hlen : (length names <= size (dom es))%nat).
    { rewrite <- (size_list_to_set (C := gset string) names) by done.
      apply subseteq_size. intros x Hx%elem_of_list_to_set. by apply Hin. }
    rewrite size_dom in Hlen. unfold names in Hlen.
    rewrite !length_fmap, length_seq in Hlen. lia.
  - destruct (slot_name_plain base 1) as [H1 H2].
    destruct (Hstat _ H1 H2 (Hall 1 ltac:(lia))) as (T & es & HT & Hes).
    unfold Tree.stat in Hst. rewrite HT in Hst. simpl in Hst. congruence.
Qed.

End Slots.
(** ** Moving into the trash *)

Section Staging.

Implicit Types (t : node) (p q P Q T : list string) (c : string) (s : Shell).

(** An update at [p] leaves a directory a directory, unless it is at [p]
    or below. *)
Lemma update_keeps_dir_at p v t q :
  Tree.is_dir_node (Tree.lookup q t) = true -> ~ p `prefix_of` q ->
  Tree.is_dir_node (Tree.lookup q (Tree.update p v t)) = true.
Proof.
  revert q t. induction p as [|c p IH]; intros q t Hq Hpq.
  - destruct Hpq. apply prefix_nil.
  - destruct t as [d|es]; [by destruct p|].
    destruct q as [|c' q].
    { destruct p as [|c2 p]; [done|]. rewrite update_cons by done.
      by destruct (es !! c). }
    rewrite lookup_cons in Hq.
    destruct (decide (c = c')) as [->|Hne].
    + destruct p as [|c2 p].
      * destruct Hpq. by apply prefix_cons, prefix_nil.
      * rewrite update_cons by done.
        destruct (es !! c') as [ch|] eqn:Hc; [|done].
        rewrite lookup_cons, lookup_insert_eq. simpl in *.
        apply IH; [done|]. intros H. apply Hpq. by apply prefix_cons.
    + destruct p as [|c2 p].
      * simpl. by rewrite lookup_partial_alter_ne.
      * rewrite update_cons by done. destruct (es !! c) as [ch|] eqn:Hc.
        -- rewrite lookup_cons. by rewrite lookup_insert_ne.
        -- by rewrite lookup_cons.
  Qed.

Lemma prefix_snoc_inv {A} (l1 l2 : list A) x :
  l1 `prefix_of` l2 ++ [x] -> l1 = l2 ++ [x] \/ l1 `prefix_of` l2.
Proof.
  intros [k Hk]. destruct k as [|y k _] using rev_ind.
  - left. by rewrite app_nil_r in Hk.
  - right. rewrite app_assoc in Hk. apply app_inj_tail in Hk as [-> _].
    by apply prefix_app_r.
Qed.


(** [shutil.move] to a destination that does not exist. *)
Lemma move_fresh t src dst P Q n :
  Tree.canon t src = Some P -> Tree.canon t dst = Some Q ->
  Tree.lookup P t = Some n -> Tree.lookup Q t = None ->
  Path.name src <> ".." -> Path.name dst <> ".." -> P <> [] -> Q <> [] ->
  ~ P `prefix_of` Q ->
  Os.move src dst t = (Ok tt, Tree.update Q (Some n) (Tree.update P None t)).
Proof.
  intros HP HQ Hn Hfree Hs Hd HPne HQne Hpre.
  assert (Hnd : Tree.is_dir t dst = false).
  { unfold Tree.is_dir, Tree.stat. by rewrite HQ; simpl; rewrite Hfree. }
  unfold Os.move. rewrite Hnd. unfold try_except, Os.rename.
  rewrite HP, HQ, Hn, Hfree.
  rewrite bool_decide_eq_false_2 by tauto.
  rewrite bool_decide_eq_false_2 by (intros ->; congruence).
  by rewrite bool_decide_eq_false_2.
Qed.

(** The name the loop settles on, for a trash [T] holding [es]: a plain
    name that [es] does not hold, found first-fit. *)
Lemma stage_slot t trash T es base :
  Tree.canon t trash = Some T -> Tree.lookup T t = Some (Dir es) ->
  base <> "" -> base <> ".." ->
  exists c,
    free_slot (slot_bound t trash) t trash base 1 (Path.child trash base)
    = Some (trash ++ [c])
    /\ c <> "" /\ c <> ".." /\ es !! c = None
    /\ (es !! base = None /\ c = base
        \/ is_Some (es !! base)
           /\ exists k, 1 <= k /\ c = slot_name base k
                /\ forall j, 1 <= j < k -> is_Some (es !! slot_name base j)).
Proof.
  intros HT Hes Hb1 Hb2.
  pose proof (free_slot_spec (slot_bound t trash) t trash base 1 (Path.child trash base))
    as Hspec.
  destruct (free_slot_total t trash base) as [slot Hslot].
  rewrite Hslot in Hspec. destruct Hspec as [Hfree Hfit].
  assert (Hname : forall c, c <> "" -> c <> ".." ->
             Tree.exists_ t (Path.child trash c) = bool_decide (is_Some (es !! c))).
  { intros c H1 H2. rewrite (exists_child _ _ T es) by done.
    by rewrite decide_False by tauto. }
  assert (Hchild : forall c, c <> "" -> Path.child trash c = trash ++ [c]).
  { intros c H. unfold Path.child. by rewrite decide_False. }
  destruct Hfit as [->|(Htaken & k & Hk & -> & Hall)].
  - exists base. rewrite Hname in Hfree by done.
    apply bool_decide_eq_false in Hfree.
    assert (es !! base = None) by (by destruct (es !! base); [destruct Hfree|]).
    rewrite Hchild in Hslot by done. rewrite Hchild by done. auto 10.
  - destruct (slot_name_plain base k) as [H1 H2].
    exists (slot_name base k). rewrite Hname in Hfree, Htaken by done.
    apply bool_decide_eq_false in Hfree. apply bool_decide_eq_true in Htaken.
    assert (es !! slot_name base k = None)
      by (by destruct (es !! slot_name base k); [destruct Hfree|]).
    rewrite (Hchild (slot_name base k)) in Hslot by done.
    split; [done|]. repeat split; try done. right. split; [done|].
    exists k. split; [lia|]. split; [done|]. intros j Hj.
    specialize (Hall j Hj). destruct (slot_name_plain base j).
    rewrite Hname in Hall by done. by apply bool_decide_eq_true in Hall.
Qed.

(** The tree once [P] has been moved to the free name [c] of the trash. *)
Lemma staged_tree t T es P n c :
  Tree.lookup T t = Some (Dir es) -> Tree.lookup P t = Some n ->
  P <> [] -> ~ P `prefix_of` T -> es !! c = None ->
  let t' := Tree.update (T ++ [c]) (Some n) (Tree.update P None t) in
  Tree.lookup (T ++ [c]) t = None
  /\ ~ P `prefix_of` T ++ [c]
  /\ ~ T ++ [c] `prefix_of` P
  /\ Tree.lookup (T ++ [c]) t' = Some n
  /\ Tree.lookup P t' = None.
Proof.
  intros Hes Hn HPne Hpre Hc t'.
  assert (HfreeQ : Tree.lookup (T ++ [c]) t = None).
  { rewrite lookup_app, Hes. simpl. by rewrite Hc. }
  assert (HPQ : ~ P `prefix_of` T ++ [c]).
  { intros [->|H]%prefix_snoc_inv; [congruence | done]. }
  assert (HQP : ~ T ++ [c] `prefix_of` P).
  { intros [k ->]. rewrite lookup_app, HfreeQ in Hn. done. }
  split; [done|]. split; [done|]. split; [done|]. unfold t'. split.
  - apply lookup_update_eq. apply update_keeps_dir_at; [by rewrite Hes | done].
  - rewrite lookup_update_ne by done. by apply lookup_update_gone.
Qed.

(** What [stage] does with a path that [os.rename] can move. *)
Lemma stage_runs s path T es P n c :
  Tree.canon (tree s) (trash_dir s) = Some T ->
  Tree.lookup T (tree s) = Some (Dir es) ->
  Tree.canon (tree s) path = Some P ->
  Tree.lookup P (tree s) = Some n ->
  Path.name path <> ".." -> P <> [] -> ~ P `prefix_of` T ->
  free_slot (slot_bound (tree s) (trash_dir s)) (tree s) (trash_dir s) (Path.name path)
            1 (Path.child (trash_dir s) (Path.name path))
  = Some (trash_dir s ++ [c]) ->
  c <> "" -> c <> ".." -> es !! c = None ->
  stage path s
  = (Ok tt, set_last_undo (Some (UndoMove (trash_dir s ++ [c]) path))
              (set_tree (Tree.update (T ++ [c]) (Some n) (Tree.update P None (tree s))) s)).
Proof.
  intros HT Hes HP Hn Hb2 HPne Hpre Hslot Hc1 Hc2 Hc.
  destruct (stat_child (tree s) (trash_dir s) T es c HT Hes Hc1 Hc2) as [HQ _].
  destruct (staged_tree (tree s) T es P n c) as (HfreeQ & HPQ & _); try done.
  unfold stage. munfold. rewrite Hslot.
  rewrite (move_fresh _ path (trash_dir s ++ [c]) P (T ++ [c]) n); try done.
  - unfold Path.name. by rewrite last_snoc.
  - by destruct T.
Qed.


End Staging.

Example two_files_of_one_name :
  Tree.stat (tree (snd (rm ["file.txt"; "w/file.txt"] twin_shell))) Demo.trash
  = Some (Dir (<["file.txt" := File (Utf8 "hello")]>
               {["file.txt_1" := File (Utf8 "other")]})).
Proof. vm_compute. reflexivity. Qed.

(** ** [rm] of a file, then [undo] *)

Section RmUndo.

Variable re : string -> bool -> option (string -> bool).

Implicit Types (t : node) (P Q T : list string) (s : Shell).

Lemma canon_from_resolve t acc p q :
  Tree.canon_from t acc p = Some q -> q = foldl Path.step acc p.
Proof.
  revert acc. induction p as [|c p IH]; intros acc; simpl; [congruence|].
  destruct (Tree.is_dir_node _); [apply IH | done].
Qed.

Lemma canon_resolve t p q : Tree.canon t p = Some q -> q = Path.resolve p.
Proof. apply canon_from_resolve. Qed.

(** Moving a regular file changes the resolution of no path. *)
Lemma canon_file_moved t P Q d p :
  Tree.lookup P t = Some (File d) -> Tree.lookup Q t = None ->
  Tree.canon (Tree.update Q (Some (File d)) (Tree.update P None t)) p = Tree.canon t p.
Proof.
  intros HP HQ. unfold Tree.canon. apply canon_from_ext. intros q.
  rewrite update_keeps_dirs; [|by rewrite lookup_update_none|done].
  apply update_keeps_dirs; [by rewrite HP|done].
Qed.

(** The inverse move puts the tree back. *)
Lemma move_back t src dst P Q n :
  Tree.canon (Tree.update Q (Some n) (Tree.update P None t)) src = Some P ->
  Tree.canon (Tree.update Q (Some n) (Tree.update P None t)) dst = Some Q ->
  Tree.lookup P t = Some n -> Tree.lookup Q t = None ->
  Tree.lookup Q (Tree.update Q (Some n) (Tree.update P None t)) = Some n ->
  Tree.lookup P (Tree.update Q (Some n) (Tree.update P None t)) = None ->
  Path.name src <> ".." -> Path.name dst <> ".." -> P <> [] -> Q <> [] ->
  ~ Q `prefix_of` P ->
  Os.move dst src (Tree.update Q (Some n) (Tree.update P None t)) = (Ok tt, t).
Proof.
  intros Hsrc Hdst HP HQ HQ1 HP1 Hn1 Hn2 HPne HQne Hpre.
  rewrite (move_fresh _ dst src Q P n) by done. f_equal.
  rewrite update_update by done.
  pose proof (update_id Q (Tree.update P None t)) as HX.
  rewrite (lookup_update_none P Q t HQ) in HX. rewrite HX.
  rewrite update_update by done.
  pose proof (update_id P t) as Ht. by rewrite HP in Ht.
Qed.


End RmUndo.


(** ** [mv], then [undo] *)

(** C8 at a failing input.  In [/tmp/w], [mv ../w ../w2] succeeds and
    renames the directory the shell is in.  The descriptor it registers
    names both paths through [/tmp/w], which is gone: [undo] raises, [/tmp/w]
    is not restored and [/tmp/w2] stays. *)
Theorem mv_of_current_directory_is_not_undone :
  current_dir inside_w = ["tmp"; "w"]
  /\ fst (dispatch Demo.re_compile "mv ../w ../w2" inside_w) = Ok true
  /\ hist_file moved_w = Some ["1. cd w"; "2. mv ../w ../w2"]
  /\ Tree.stat (tree inside_w) ["tmp"; "w"] = Some (Dir ∅)
  /\ Tree.stat (tree moved_w) ["tmp"; "w"] = None
  /\ Tree.stat (tree moved_w) ["tmp"; "w2"] = Some (Dir ∅)
  /\ last_undo moved_w
     = Some (UndoMove ["tmp"; "w"; ".."; "w2"] ["tmp"; "w"; ".."; "w"])
  /\ undo [] moved_w
     = (Raise (Os.enoent ["tmp"; "w"; ".."; "w2"]), moved_w)
  /\ tree (snd (dispatch Demo.re_compile "undo" moved_w)) = tree moved_w
  /\ Tree.stat (tree (snd (dispatch Demo.re_compile "undo" moved_w))) ["tmp"; "w"] = None
  /\ hist_file (snd (dispatch Demo.re_compile "undo" moved_w)) = hist_file moved_w.
Proof. vm_compute. repeat split; reflexivity. Qed.

(** ** [mv], then [undo], for operands without [".."] *)

Section MvUndo.

Variable re : string -> bool -> option (string -> bool).

Implicit Types (t : node) (p q P Q : list string) (s : Shell).

(** A path without [".."] resolves to itself, exactly when every
    directory on the way exists. *)
Lemma canon_from_plain t acc p :
  ".." ∉ p ->
  Tree.canon_from t acc p = Some (acc ++ p)
  <-> forall q c r, p = q ++ c :: r -> Tree.is_dir_node (Tree.lookup (acc ++ q) t) = true.
Proof.
  revert acc. induction p as [|c p IH]; intros acc Hp; simpl.
  - rewrite app_nil_r. split; [|done]. intros _ q c r H. by destruct q.
  - apply not_elem_of_cons in Hp as [Hc Hp].
    unfold Path.step. rewrite decide_False by done.
    specialize (IH (acc ++ [c]) Hp). rewrite <- app_assoc in IH. simpl in IH.
    split.
    + intros H q c' r Hq.
      destruct (Tree.is_dir_node (Tree.lookup acc t)) eqn:Hd; [|done].
      destruct q as [|x q]; simplify_eq/=; [by rewrite app_nil_r|].
      pose proof (proj1 IH H q c' r eq_refl) as H'.
      by rewrite <- app_assoc in H'.
    + intros H. rewrite <- (app_nil_r acc) at 1.
      rewrite (H [] c p eq_refl). apply IH. intros q c' r ->.
      rewrite <- app_assoc. simpl. by apply (H (c :: q) c' r).
Qed.

Lemma canon_plain t p q :
  ".." ∉ p -> Tree.canon t p = Some q -> q = p.
Proof.
  intros Hp H. apply canon_resolve in H as ->. unfold Path.resolve.
  assert (forall acc, foldl Path.step acc p = acc ++ p) as ->; [|done].
  induction p as [|c p IH]; intros acc; simpl; [by rewrite app_nil_r|].
  apply not_elem_of_cons in Hp as [Hc Hp]. unfold Path.step at 2.
  rewrite decide_False by done. rewrite IH by done. by rewrite <- app_assoc.
Qed.


(** Moving [P] to a free [Q] keeps the directories above both. *)
Lemma moved_keeps_dir_at t P Q n q :
  Tree.is_dir_node (Tree.lookup q t) = true ->
  ~ P `prefix_of` q -> ~ Q `prefix_of` q ->
  Tree.is_dir_node (Tree.lookup q (Tree.update Q (Some n) (Tree.update P None t))) = true.
Proof. intros. by do 2 (apply update_keeps_dir_at; [|done]). Qed.

(** A resolved path resolves as before once [P] has been moved to [Q],
    unless it went through [P] or [Q]. *)
Lemma canon_moved t P Q n p :
  Tree.canon t p = Some p -> ".." ∉ p ->
  ~ P `prefix_of` p \/ p = P -> ~ Q `prefix_of` p \/ p = Q ->
  Tree.canon (Tree.update Q (Some n) (Tree.update P None t)) p = Some p.
Proof.
  intros Hc Hpl H1 H2. unfold Tree.canon in *.
  apply (canon_from_plain _ [] p Hpl). intros q c r ->. simpl.
  apply moved_keeps_dir_at.
  - by apply (proj1 (canon_from_plain _ [] _ Hpl) Hc q c r).
  - intros [k Hk]. destruct H1 as [H1|H1].
    + apply H1. exists (k ++ c :: r). by rewrite Hk, <- app_assoc.
    + apply (f_equal length) in H1. rewrite Hk, !length_app in H1. simpl in H1. lia.
  - intros [k Hk]. destruct H2 as [H2|H2].
    + apply H2. exists (k ++ c :: r). by rewrite Hk, <- app_assoc.
    + apply (f_equal length) in H2. rewrite Hk, !length_app in H2. simpl in H2. lia.
Qed.

(** The tree once [P] has been moved to a free [Q] below an existing
    directory, and the way back. *)
Lemma moved_and_back t src dst n :
  Tree.canon t src = Some src -> Tree.canon t dst = Some dst ->
  ".." ∉ src -> ".." ∉ dst ->
  Tree.lookup src t = Some n -> Tree.lookup dst t = None ->
  src <> [] -> dst <> [] -> ~ src `prefix_of` dst ->
  let t1 := Tree.update dst (Some n) (Tree.update src None t) in
  Tree.lookup dst t1 = Some n
  /\ Tree.lookup src t1 = None
  /\ Os.move dst src t1 = (Ok tt, t).
Proof.
  intros HP HQ Hps Hpd Hn Hfree HPne HQne Hpre t1.
  assert (HQP : ~ dst `prefix_of` src).
  { intros [k Hk]. rewrite Hk, lookup_app, Hfree in Hn. done. }
  assert (Hnew : Tree.lookup dst t1 = Some n).
  { unfold t1. destruct dst as [|c fd _] using rev_ind; [done|].
    apply lookup_update_eq. apply update_keeps_dir_at.
    - unfold Tree.canon in HQ.
      by apply (proj1 (canon_from_plain _ [] _ Hpd) HQ fd c []).
    - intros H. apply Hpre. by apply prefix_app_r. }
  assert (Hgone : Tree.lookup src t1 = None).
  { unfold t1. rewrite lookup_update_ne by done. by apply lookup_update_gone. }
  split; [done|]. split; [done|].
  assert (Hname : forall p, ".." ∉ p -> Path.name p <> "..").
  { intros p Hp. unfold Path.name. destruct (last p) as [x|] eqn:Hl; [|done].
    simpl. intros ->. apply Hp. by apply last_Some_elem_of. }
  apply (move_back _ src dst src dst n); try done; auto.
  - apply canon_moved; auto.
  - apply canon_moved; auto.
Qed.



End MvUndo.


(** ** [cp] *)

Section Cp.

Variable re : string -> bool -> option (string -> bool).

Implicit Types (t : node) (p q P Q : list string) (s : Shell).

Lemma extends_refl t : extends t t.
Proof. intros q. by destruct (Tree.lookup q t) as [[d|es]|]. Qed.

(** A new entry at a free path takes nothing away. *)
Lemma update_extends Q v t :
  Tree.lookup Q t = None -> extends t (Tree.update Q (Some v) t).
Proof.
  revert t. induction Q as [|c Q IH]; intros t Hfree; [done|].
  destruct t as [d|es]; [by destruct Q; apply extends_refl|].
  rewrite lookup_cons in Hfree. intros q.
  destruct q as [|c' q].
  { destruct Q as [|c2 Q]; [done|]. rewrite update_cons by done.
    by destruct (es !! c). }
  destruct Q as [|c2 Q].
  - simpl in Hfree. cbn [Tree.update]. rewrite !lookup_cons.
    destruct (decide (c' = c)) as [->|Hne].
    + destruct (es !! c); [done|]. done.
    + rewrite lookup_partial_alter_ne by done.
      by destruct (es !! c' ≫= Tree.lookup q) as [[d|es']|].
  - rewrite update_cons by done. destruct (es !! c) as [ch|] eqn:Hc.
    + simpl in Hfree. rewrite !lookup_cons.
      destruct (decide (c' = c)) as [->|Hne].
      * rewrite lookup_insert_eq, Hc. simpl. apply (IH ch Hfree q).
      * rewrite lookup_insert_ne by done.
        by destruct (es !! c' ≫= Tree.lookup q) as [[d|es']|].
    + apply (extends_refl (Dir es) (c' :: q)).
Qed.

(** The directories [copytree] makes and the copy it places take nothing
    away either. *)
Lemma place_extends p leaf t t' :
  Os.place p leaf (Some t) = Some t' -> extends t t'.
Proof.
  revert t t'. induction p as [|c p IH]; intros t t' H; [done|].
  destruct t as [d|es]; [done|]. cbn [Os.place] in H.
  destruct (Os.place p leaf (es !! c)) as [ch|] eqn:Hch; [|done].
  simpl in H. simplify_eq. intros q. destruct q as [|c' q]; [done|].
  rewrite !lookup_cons. destruct (decide (c' = c)) as [->|Hne].
  - rewrite lookup_insert_eq. destruct (es !! c) as [x|] eqn:Hx; [|done].
    simpl. apply (IH x ch Hch q).
  - rewrite lookup_insert_ne by done.
    by destruct (es !! c' ≫= Tree.lookup q) as [[d|es']|].
Qed.

Lemma exists_false t p Q :
  Tree.exists_ t p = false -> Tree.canon t p = Some Q -> Tree.lookup Q t = None.
Proof.
  unfold Tree.exists_, Tree.stat. intros H HQ. rewrite HQ in H. simpl in H.
  apply bool_decide_eq_false in H. destruct (Tree.lookup Q t); [|done].
  destruct H. eauto.
Qed.

Lemma not_exists_not_dir t p : Tree.exists_ t p = false -> Tree.is_dir t p = false.
Proof.
  intros H. destruct (Tree.is_dir t p) eqn:Hd; [|done].
  apply is_dir_exists in Hd. congruence.
Qed.

(** A path that resolves and holds nothing is a free name in an
    existing directory. *)
Lemma canon_free_parent t p Q :
  Tree.canon t p = Some Q -> Tree.lookup Q t = None ->
  exists a c, Q = a ++ [c] /\ Tree.is_dir_node (Tree.lookup a t) = true.
Proof.
  destruct p as [|c p _] using rev_ind.
  { intros [= <-]. done. }
  rewrite canon_snoc. destruct (Tree.canon t p) as [a|]; [|done]. simpl.
  destruct (Tree.is_dir_node (Tree.lookup a t)) eqn:Ha; [|done].
  intros [= <-] Hfree. unfold Path.step in *. destruct (decide (c = "..")).
  - apply lookup_removelast in Ha. by rewrite Hfree in Ha.
  - eauto.
Qed.

(** What [shutil.copy2] does for a destination that does not exist. *)
Lemma copy2_fresh_inv t src dst t1 :
  Tree.exists_ t dst = false -> Os.copy2 src dst t = (Ok tt, t1) ->
  exists d Q,
    Tree.stat t src = Some (File d) /\ Tree.canon t dst = Some Q
    /\ Tree.lookup Q t = None
    /\ t1 = Tree.update Q (Some (File d)) t.
Proof.
  intros Hex. unfold Os.copy2. rewrite (not_exists_not_dir _ _ Hex).
  destruct (Tree.stat t src) as [[d|es]|]; [|done..].
  destruct (Tree.canon t dst) as [Q|] eqn:HQ; [|by destruct d].
  pose proof (exists_false _ _ _ Hex HQ) as Hfree. rewrite Hfree. simpl.
  destruct d; intros [= <-]; eauto 10.
Qed.

Lemma copy2_extends t src dst r t1 :
  Tree.exists_ t dst = false -> Os.copy2 src dst t = (r, t1) -> extends t t1.
Proof.
  intros Hex. unfold Os.copy2. rewrite (not_exists_not_dir _ _ Hex).
  destruct (Tree.stat t src) as [[d|es]|];
    [|intros [= _ <-]; apply extends_refl..].
  destruct (Tree.canon t dst) as [Q|] eqn:HQ.
  - rewrite (exists_false _ _ _ Hex HQ). simpl.
    destruct d; intros [= _ <-]; try apply extends_refl;
      by apply update_extends, (exists_false _ dst).
  - destruct d; intros [= _ <-]; apply extends_refl.
Qed.

Lemma copytree_extends t src dst r t1 :
  Os.copytree src dst t = (r, t1) -> extends t t1.
Proof.
  unfold Os.copytree.
  destruct (Tree.stat t src) as [[d|es]|];
    [intros [= _ <-]; apply extends_refl| |intros [= _ <-]; apply extends_refl].
  destruct (Os.place _ _ _) as [t'|] eqn:Hp.
  - apply place_extends in Hp. by destruct (Os.all_readable _); intros [= _ <-].
  - intros [= _ <-]. apply extends_refl.
Qed.

(** X2.  [cp] only adds: whatever its arguments, and whether it returns
    or raises, every regular file of the file system is afterwards where
    it was, with the content it had, and every directory is still a
    directory. *)
Theorem cp_only_adds args s : extends (tree s) (tree (snd (cp args s))).
Proof.
  unfold cp.
  set (recursive := match args with a :: _ => bool_decide (a = "-r") | [] => false end).
  destruct (if recursive then tail args else args) as [|a0 [|a1 [|a2 rest]]];
    try apply extends_refl.
  munfold.
  destruct (Tree.exists_ (tree s) (Path.join (current_dir s) a0));
    [|apply extends_refl].
  cbn [negb].
  destruct (Tree.exists_ (tree s) (Path.join (current_dir s) a1)) eqn:Hex;
    [apply extends_refl|].
  destruct (Tree.is_dir (tree s) (Path.join (current_dir s) a0) && negb recursive);
    [apply extends_refl|].
  destruct recursive.
  - destruct (Os.copytree _ _ _) as [[[]|e] t1] eqn:Hc;
      apply copytree_extends in Hc; exact Hc.
  - destruct (Os.copy2 _ _ _) as [[[]|e] t1] eqn:Hc;
      apply (copy2_extends _ _ _ _ _ Hex) in Hc; exact Hc.
Qed.

(** What [cp] of a regular file has done when it returns. *)
Lemma cp_returns a0 a1 s s1 :
  a0 <> "-r" ->
  cp [a0; a1] s = (Ok None, s1) ->
  let src := Path.join (current_dir s) a0 in
  let dst := Path.join (current_dir s) a1 in
  Tree.exists_ (tree s) dst = false
  /\ exists t1,
       Os.copy2 src dst (tree s) = (Ok tt, t1)
       /\ s1 = set_last_undo (Some (if Tree.is_dir t1 dst then UndoRmtree dst
                                    else UndoRemove dst)) (set_tree t1 s).
Proof.
  intros Hr H. cbv zeta. unfold cp in H. cbv beta iota zeta in H.
  rewrite (bool_decide_eq_false_2 _ Hr) in H. cbv beta iota zeta in H. munfold.
  set (src := Path.join (current_dir s) a0) in *.
  set (dst := Path.join (current_dir s) a1) in *.
  destruct (Tree.exists_ (tree s) src); [|done]. cbn [negb] in H.
  destruct (Tree.exists_ (tree s) dst); [done|].
  destruct (Tree.is_dir (tree s) src && _); [done|].
  destruct (Os.copy2 src dst (tree s)) as [[[]|e] t1]; [|done].
  simpl in H. simplify_eq. eauto.
Qed.

(** X3.  A [cp] of a regular file that returns has created the
    destination with the content of the source and left the source where
    it was; the [undo] that follows removes the copy, puts the file system
    back exactly as it was and clears the descriptor. *)
Theorem cp_then_undo_restores cmd1 cmd2 a0 a1 args s s1 :
  Shlex.split cmd1 = Some ["cp"; a0; a1] ->
  Shlex.split cmd2 = Some ("undo" :: args) ->
  a0 <> "-r" ->
  cp [a0; a1] (logged (LogInfo cmd1) s) = (Ok None, s1) ->
  let src := Path.join (current_dir s) a0 in
  let dst := Path.join (current_dir s) a1 in
  Tree.exists_ (tree s) dst = false
  /\ Tree.is_file (tree s) src = true
  /\ Tree.stat (tree s1) dst = Tree.stat (tree s) src
  /\ Tree.stat (tree s1) src = Tree.stat (tree s) src
  /\ last_undo s1 = Some (UndoRemove dst)
  /\ exists s2,
       dispatch re cmd1 s = (Ok true, committed cmd1 None s1)
       /\ dispatch re cmd2 (committed cmd1 None s1) = (Ok true, s2)
       /\ tree s2 = tree s
       /\ last_undo s2 = None.
Proof.
  intros Hs1 Hs2 Hr Hcp.
  destruct (cp_returns _ _ _ _ Hr Hcp) as (Hex & t1 & Hcopy & ->).
  change (current_dir (logged (LogInfo cmd1) s)) with (current_dir s) in *.
  change (tree (logged (LogInfo cmd1) s)) with (tree s) in *.
  cbv zeta.
  set (src := Path.join (current_dir s) a0) in *.
  set (dst := Path.join (current_dir s) a1) in *.
  destruct (copy2_fresh_inv _ _ _ _ Hex Hcopy) as (d & Q & Hsrc & HQ & Hfree & ->).
  destruct (canon_free_parent _ _ _ HQ Hfree) as (a & c & -> & Ha).
  set (t1 := Tree.update (a ++ [c]) (Some (File d)) (tree s)) in *.
  assert (Hcan : forall p, Tree.canon t1 p = Tree.canon (tree s) p).
  { intros p. unfold Tree.canon. apply canon_from_ext. intros q.
    apply update_keeps_dirs; [by rewrite Hfree | done]. }
  assert (Hnew : Tree.lookup (a ++ [c]) t1 = Some (File d)).
  { by apply lookup_update_eq. }
  assert (Hdst : Tree.stat t1 dst = Some (File d)).
  { unfold Tree.stat. by rewrite Hcan, HQ. }
  assert (Hnd : Tree.is_dir t1 dst = false).
  { unfold Tree.is_dir. by rewrite Hdst. }
  assert (Hback : Os.remove dst t1 = (Ok tt, tree s)).
  { unfold Os.remove. rewrite Hcan, HQ, Hnew. f_equal. unfold t1.
    rewrite update_update by (by destruct a).
    pose proof (update_id (a ++ [c]) (tree s)) as Hid. by rewrite Hfree in Hid. }
  rewrite Hnd in *.
  split; [done|]. split; [by unfold Tree.is_file; rewrite Hsrc|].
  simpl. split; [by rewrite Hsrc|]. split.
  { unfold Tree.stat in *. rewrite Hcan.
    destruct (Tree.canon (tree s) src) as [P|]; [|done]. simpl in *.
    pose proof (update_extends (a ++ [c]) (File d) (tree s) Hfree P) as He.
    rewrite Hsrc in He. rewrite Hsrc. exact He. }
  split; [done|]. eexists. split.
  { rewrite (dispatch_spec re cmd1 "cp" [a0; a1] cp s Hs1 eq_refl). by rewrite Hcp. }
  split.
  { rewrite (dispatch_spec re cmd2 "undo" args undo _ Hs2 eq_refl).
    rewrite (undo_returns args _ (UndoRemove dst) (tree s)); [done|done|].
    exact Hback. }
  done.
Qed.

End Cp.

Lemma cp_then_undo_restores_witness :
  let s := Demo.shell [] in
  let s1 := snd (cp ["file.txt"; "w/copy"] (logged (LogInfo "cp file.txt w/copy") s)) in
  Tree.exists_ (tree s) ["tmp"; "w"; "copy"] = false
  /\ Tree.is_file (tree s) ["tmp"; "file.txt"] = true
  /\ Tree.stat (tree s1) ["tmp"; "w"; "copy"] = Some (File (Utf8 "hello"))
  /\ Tree.stat (tree s1) ["tmp"; "file.txt"] = Some (File (Utf8 "hello"))
  /\ last_undo s1 = Some (UndoRemove ["tmp"; "w"; "copy"])
  /\ exists s2,
       dispatch Demo.re_compile "cp file.txt w/copy" s
       = (Ok true, committed "cp file.txt w/copy" None s1)
       /\ dispatch Demo.re_compile "undo" (committed "cp file.txt w/copy" None s1)
          = (Ok true, s2)
       /\ tree s2 = Demo.world
       /\ last_undo s2 = None.
Proof.
  intros s s1.
  apply (cp_then_undo_restores Demo.re_compile "cp file.txt w/copy" "undo"
           "file.txt" "w/copy" [] s s1).
  - reflexivity.
  - reflexivity.
  - discriminate.
  - vm_compute. reflexivity.
Defined.

(** ** [cp -r] *)

Section CpTree.

Variable re : string -> bool -> option (string -> bool).

Implicit Types (t : node) (p q : list string) (c : string) (s : Shell).

Lemma resolve_plain p : ".." ∉ p -> Path.resolve p = p.
Proof.
  intros Hp. unfold Path.resolve.
  assert (forall acc, foldl Path.step acc p = acc ++ p) as ->; [|done].
  induction p as [|c p IH]; intros acc; simpl; [by rewrite app_nil_r|].
  apply not_elem_of_cons in Hp as [Hc Hp]. unfold Path.step at 2.
  rewrite decide_False by done. rewrite IH by done. by rewrite <- app_assoc.
Qed.

(** In an existing directory [copytree] has no parent to make. *)
Lemma place_update a c leaf t :
  Tree.is_dir_node (Tree.lookup a t) = true -> Tree.lookup (a ++ [c]) t = None ->
  Os.place (a ++ [c]) leaf (Some t)
  = Some (Tree.update (a ++ [c]) (Some leaf) t).
Proof.
  revert t. induction a as [|x a IH]; intros t Ha Hfree.
  - destruct t as [d|es]; [done|]. simpl in Hfree. simpl.
    by destruct (es !! c).
  - destruct t as [d|es]; [done|]. simpl app in *.
    rewrite lookup_cons in Ha, Hfree. cbn [Os.place].
    rewrite update_cons by (by destruct a).
    destruct (es !! x) as [ch|]; [|done]. simpl in *. by rewrite IH.
Qed.

(** Where [copytree] puts the copy, and the directories above it. *)
Lemma place_lookup p leaf n t' :
  Os.place p leaf n = Some t' ->
  Tree.lookup p t' = Some leaf
  /\ forall q c r, p = q ++ c :: r -> Tree.is_dir_node (Tree.lookup q t') = true.
Proof.
  revert n t'. induction p as [|c p IH]; intros n t' H.
  - destruct n; [done|]. simpl in H. simplify_eq. split; [done|].
    intros q c r Hq. by destruct q.
  - cbn [Os.place] in H.
    assert (exists ch es, t' = Dir (<[c := ch]> es)
                          /\ exists n', Os.place p leaf n' = Some ch)
      as (ch & es & -> & n' & Hch).
    { destruct n as [[d|es]|]; [done|..].
      - destruct (Os.place p leaf (es !! c)) as [ch|] eqn:Hch; [|done].
        simpl in H. simplify_eq. eauto 10.
      - destruct (Os.place p leaf None) as [ch|] eqn:Hch; [|done].
        simpl in H. simplify_eq. exists ch, ∅. eauto. }
    destruct (IH _ _ Hch) as [Hl Hd]. split.
    + by rewrite lookup_cons, lookup_insert_eq.
    + intros q c' r Hq. destruct q as [|x q]; [done|]. simplify_eq/=.
      rewrite lookup_insert_eq. simpl. by apply (Hd q c' r).
Qed.

(** What [cp -r] has done when it returns. *)
Lemma cp_r_returns a0 a1 s s1 :
  cp ["-r"; a0; a1] s = (Ok None, s1) ->
  let src := Path.join (current_dir s) a0 in
  let dst := Path.join (current_dir s) a1 in
  Tree.exists_ (tree s) dst = false
  /\ exists es t1,
       Tree.stat (tree s) src = Some (Dir es)
       /\ Os.place (Path.resolve dst) (Os.readable_part (Dir es)) (Some (tree s)) = Some t1
       /\ s1 = set_last_undo (Some (if Tree.is_dir t1 dst then UndoRmtree dst
                                    else UndoRemove dst)) (set_tree t1 s).
Proof.
  intros H. cbv zeta. unfold cp in H. cbv beta iota zeta in H.
  rewrite bool_decide_eq_true_2 in H by done.
  cbv beta iota zeta delta [tail] in H. munfold.
  set (src := Path.join (current_dir s) a0) in *.
  set (dst := Path.join (current_dir s) a1) in *.
  destruct (Tree.exists_ (tree s) src); [|done]. cbn [negb] in H.
  destruct (Tree.exists_ (tree s) dst); [done|].
  destruct (Tree.is_dir (tree s) src && _); [done|].
  unfold Os.copytree in H.
  destruct (Tree.stat (tree s) src) as [[d|es]|]; [done| |done].
  destruct (Os.place _ _ _) as [t1|] eqn:Hp; [|done].
  destruct (Os.all_readable _); [|done].
  injection H as <-.
  split; [reflexivity|]. exists es, t1. split; [reflexivity|]. split; [exact Hp|].
  reflexivity.
Qed.

(** [shutil.rmtree] of the directory [copytree] has made. *)
Lemma rmtree_placed t dst leaf t1 :
  ".." ∉ dst -> dst <> [] ->
  Os.place dst leaf (Some t) = Some t1 -> Tree.is_dir_node (Some leaf) = true ->
  Tree.is_dir t1 dst = true
  /\ Os.rmtree dst t1 = (Ok tt, Tree.update dst None t1).
Proof.
  intros Hpl Hne Hp Hleaf. destruct (place_lookup _ _ _ _ Hp) as [Hl Hd].
  assert (Hc : Tree.canon t1 dst = Some dst).
  { by apply (canon_from_plain t1 [] dst Hpl). }
  assert (Hdir : Tree.is_dir t1 dst = true).
  { unfold Tree.is_dir, Tree.stat. rewrite Hc. simpl. by rewrite Hl. }
  split; [done|]. unfold Os.rmtree. rewrite Hc, Hl.
  destruct leaf as [d|es']; [done|].
  rewrite bool_decide_eq_false_2; [done|]. intros [?|Hn]; [done|].
  apply Hpl. unfold Path.name in Hn. destruct (last dst) as [x|] eqn:Hx; [|done].
  simpl in Hn. subst x. by apply last_Some_elem_of.
Qed.

(** X4.  A [cp -r] that returns has made the destination a directory.
    When the destination has no [".."] in its path and its parent
    directory existed, the [undo] that follows removes the copy and puts
    the file system back exactly as it was. *)
Theorem cp_r_then_undo_restores cmd1 cmd2 a0 a1 args s s1 :
  Shlex.split cmd1 = Some ["cp"; "-r"; a0; a1] ->
  Shlex.split cmd2 = Some ("undo" :: args) ->
  ".." ∉ Path.join (current_dir s) a1 ->
  Tree.is_dir (tree s) (Path.parent (Path.join (current_dir s) a1)) = true ->
  cp ["-r"; a0; a1] (logged (LogInfo cmd1) s) = (Ok None, s1) ->
  let src := Path.join (current_dir s) a0 in
  let dst := Path.join (current_dir s) a1 in
  Tree.is_dir (tree s) src = true
  /\ Tree.exists_ (tree s) dst = false
  /\ Tree.is_dir (tree s1) dst = true
  /\ last_undo s1 = Some (UndoRmtree dst)
  /\ exists s2,
       dispatch re cmd1 s = (Ok true, committed cmd1 None s1)
       /\ dispatch re cmd2 (committed cmd1 None s1) = (Ok true, s2)
       /\ tree s2 = tree s
       /\ last_undo s2 = None.
Proof.
  intros Hs1 Hs2 Hpl Hpar Hcp.
  destruct (cp_r_returns _ _ _ _ Hcp) as (Hex & es & t1 & Hsrc & Hp & ->).
  change (current_dir (logged (LogInfo cmd1) s)) with (current_dir s) in *.
  change (tree (logged (LogInfo cmd1) s)) with (tree s) in *.
  cbv zeta.
  set (src := Path.join (current_dir s) a0) in *.
  set (dst := Path.join (current_dir s) a1) in *.
  rewrite (resolve_plain _ Hpl) in Hp.
  assert (Hne : dst <> []).
  { intros Hd. rewrite Hd in Hex. done. }
  destruct (rmtree_placed _ _ _ _ Hpl Hne Hp eq_refl) as [Hdir Hrm].
  rewrite Hdir in *.
  assert (Hback : Tree.update dst None t1 = tree s).
  { destruct dst as [|c a _] using rev_ind; [done|].
    unfold Path.parent in Hpar. rewrite removelast_last in Hpar.
    apply not_elem_of_app in Hpl as [Hpa Hpc].
    destruct (is_dir_canon _ _ Hpar) as (A & esa & HA & Hesa).
    apply canon_plain in HA as HAeq; [|done]. subst A.
    assert (Hcd : Tree.canon (tree s) (a ++ [c]) = Some (a ++ [c])).
    { rewrite canon_snoc, HA. simpl. rewrite Hesa. simpl. unfold Path.step.
      rewrite decide_False; [done|]. intros ->. apply Hpc. by left. }
    pose proof (exists_false _ _ _ Hex Hcd) as Hfree.
    rewrite place_update in Hp by (by rewrite ?Hesa). simplify_eq.
    rewrite update_update by (by destruct a).
    pose proof (update_id (a ++ [c]) (tree s)) as Hid. by rewrite Hfree in Hid. }
  split; [by unfold Tree.is_dir; rewrite Hsrc|]. split; [done|].
  split; [done|]. split; [done|]. eexists. split.
  { rewrite (dispatch_spec re cmd1 "cp" ["-r"; a0; a1] cp s Hs1 eq_refl).
    by rewrite Hcp. }
  split.
  { rewrite (dispatch_spec re cmd2 "undo" args undo _ Hs2 eq_refl).
    rewrite (undo_returns args _ (UndoRmtree dst) (tree s)); [done|done|].
    simpl. by rewrite Hrm, Hback. }
  done.
Qed.

(** X5.  [cp -r] makes the directories missing above its destination,
    and [undo] removes the copy only: when the parent of the destination
    did not exist, it exists after the [undo], so the file system is not
    as it was before the [cp]. *)
Theorem cp_r_undo_leaves_parents cmd1 cmd2 a0 a1 args s s1 :
  Shlex.split cmd1 = Some ["cp"; "-r"; a0; a1] ->
  Shlex.split cmd2 = Some ("undo" :: args) ->
  ".." ∉ Path.join (current_dir s) a1 ->
  Tree.exists_ (tree s) (Path.parent (Path.join (current_dir s) a1)) = false ->
  cp ["-r"; a0; a1] (logged (LogInfo cmd1) s) = (Ok None, s1) ->
  let dst := Path.join (current_dir s) a1 in
  exists s2,
    dispatch re cmd1 s = (Ok true, committed cmd1 None s1)
    /\ dispatch re cmd2 (committed cmd1 None s1) = (Ok true, s2)
    /\ Tree.exists_ (tree s2) dst = false
    /\ Tree.is_dir (tree s2) (Path.parent dst) = true
    /\ tree s2 <> tree s.
Proof.
  intros Hs1 Hs2 Hpl Hpar Hcp.
  destruct (cp_r_returns _ _ _ _ Hcp) as (Hex & es & t1 & Hsrc & Hp & ->).
  change (current_dir (logged (LogInfo cmd1) s)) with (current_dir s) in *.
  change (tree (logged (LogInfo cmd1) s)) with (tree s) in *.
  cbv zeta.
  set (dst := Path.join (current_dir s) a1) in *.
  rewrite (resolve_plain _ Hpl) in Hp.
  assert (Hne : dst <> []).
  { intros Hd. rewrite Hd in Hex. done. }
  destruct (rmtree_placed _ _ _ _ Hpl Hne Hp eq_refl) as [Hdir Hrm].
  destruct (place_lookup _ _ _ _ Hp) as [Hl Hd].
  rewrite Hdir in *.
  assert (Hgone : Tree.exists_ (Tree.update dst None t1) dst = false).
  { unfold Tree.exists_, Tree.stat. apply bool_decide_eq_false. intros [x Hx].
    destruct (Tree.canon _ dst) as [Q|] eqn:HQ; [|done]. simpl in Hx.
    apply canon_plain in HQ as ->; [|done].
    by rewrite lookup_update_gone in Hx. }
  assert (Hparent : Tree.is_dir (Tree.update dst None t1) (Path.parent dst) = true).
  { destruct dst as [|c a _] using rev_ind; [done|].
    unfold Path.parent. rewrite removelast_last.
    apply not_elem_of_app in Hpl as [Hpa Hpc].
    assert (Hkeep : forall q, q `prefix_of` a ->
              Tree.is_dir_node (Tree.lookup q (Tree.update (a ++ [c]) None t1)) = true).
    { intros q [k Hk]. apply update_keeps_dir_at.
      - destruct k as [|x k].
        + rewrite app_nil_r in Hk. rewrite <- Hk. by apply (Hd a c []).
        + apply (Hd q x (k ++ [c])). rewrite Hk. by rewrite <- app_assoc.
      - intros [k' Hk']. apply (f_equal length) in Hk, Hk'.
        rewrite !length_app in *. simpl in *. lia. }
    unfold Tree.is_dir, Tree.stat.
    assert (Hc : Tree.canon (Tree.update (a ++ [c]) None t1) a = Some a).
    { apply (canon_from_plain _ [] a Hpa). intros q c' r ->. simpl.
      apply Hkeep. by apply prefix_app_r. }
    rewrite Hc. simpl. by apply Hkeep. }
  eexists. split.
  { rewrite (dispatch_spec re cmd1 "cp" ["-r"; a0; a1] cp s Hs1 eq_refl).
    by rewrite Hcp. }
  split.
  { rewrite (dispatch_spec re cmd2 "undo" args undo _ Hs2 eq_refl).
    rewrite (undo_returns args _ (UndoRmtree dst) (Tree.update dst None t1));
      [done|done|]. exact Hrm. }
  simpl. split; [done|]. split; [done|].
  intros Heq. rewrite Heq in Hparent. apply is_dir_exists in Hparent. congruence.
Qed.

End CpTree.

Lemma cp_r_then_undo_restores_witness :
  let s := Demo.shell [] in
  let s1 := snd (cp ["-r"; "w"; "w2"] (logged (LogInfo "cp -r w w2") s)) in
  Tree.is_dir (tree s) ["tmp"; "w"] = true
  /\ Tree.exists_ (tree s) ["tmp"; "w2"] = false
  /\ Tree.is_dir (tree s1) ["tmp"; "w2"] = true
  /\ last_undo s1 = Some (UndoRmtree ["tmp"; "w2"])
  /\ exists s2,
       dispatch Demo.re_compile "cp -r w w2" s
       = (Ok true, committed "cp -r w w2" None s1)
       /\ dispatch Demo.re_compile "undo" (committed "cp -r w w2" None s1) = (Ok true, s2)
       /\ tree s2 = Demo.world
       /\ last_undo s2 = None.
Proof.
  intros s s1.
  apply (cp_r_then_undo_restores Demo.re_compile "cp -r w w2" "undo" "w" "w2" [] s s1).
  - reflexivity.
  - reflexivity.
  - intros H. by repeat (apply elem_of_cons in H as [H|H]; [discriminate H|]);
      apply elem_of_nil in H.
  - vm_compute. reflexivity.
  - vm_compute. reflexivity.
Defined.

Lemma cp_r_undo_leaves_parents_witness :
  let s := Demo.shell [] in
  let s1 := snd (cp ["-r"; "w"; "a/b"] (logged (LogInfo "cp -r w a/b") s)) in
  exists s2,
    dispatch Demo.re_compile "cp -r w a/b" s
    = (Ok true, committed "cp -r w a/b" None s1)
    /\ dispatch Demo.re_compile "undo" (committed "cp -r w a/b" None s1) = (Ok true, s2)
    /\ Tree.exists_ (tree s2) ["tmp"; "a"; "b"] = false
    /\ Tree.is_dir (tree s2) ["tmp"; "a"] = true
    /\ tree s2 <> Demo.world.
Proof.
  intros s s1.
  apply (cp_r_undo_leaves_parents Demo.re_compile "cp -r w a/b" "undo" "w" "a/b" [] s s1).
  - reflexivity.
  - reflexivity.
  - intros H. by repeat (apply elem_of_cons in H as [H|H]; [discriminate H|]);
      apply elem_of_nil in H.
  - vm_compute. reflexivity.
  - vm_compute. reflexivity.
Defined.

(** ** The handlers that only look: [ls], [cd], [cat], [grep], [history] *)

Section Looking.

Variable re : string -> bool -> option (string -> bool).

Implicit Types (t : node) (p q : list string) (s : Shell).

Lemma silent_output o s : silent (set_output o s) = silent s.
Proof. done. Qed.

Lemma silent_cat args s : silent (snd (cat args s)) = silent s.
Proof.
  unfold cat. destruct args as [|a args]; [done|]. munfold.
  destruct (_ && _); [|done]. unfold Os.read_text.
  destruct (Tree.stat _ _) as [[d|es]|]; [|by destruct s..].
  destruct (Os.decode d); by destruct s.
Qed.

(** X6.  The handlers of [ls], [cd], [cat], [grep], [history] and [exit]
    change nothing of the session but what is printed: the file system,
    the current directory, the undo descriptor, the history and counter
    files, the counter and the waiting input are as they were, whatever
    the arguments and whether the handler returns or raises. *)
Theorem looking_changes_nothing command h args s :
  commands re command = Some h ->
  command ∉ ["cp"; "mv"; "rm"; "undo"] ->
  silent (snd (h args s)) = silent s.
Proof.
  unfold commands. intros H Hne.
  apply not_elem_of_cons in Hne as [Hcp Hne].
  apply not_elem_of_cons in Hne as [Hmv Hne].
  apply not_elem_of_cons in Hne as [Hrm Hne].
  apply not_elem_of_cons in Hne as [Hundo _].
  repeat case_bool_decide; simplify_eq;
    first [ apply (keeps_ls silent silent_output)
          | apply (keeps_cd silent)
          | apply silent_cat
          | apply (keeps_grep re silent silent_output)
          | apply (keeps_history silent silent_output)
          | apply (keeps_exit_cmd silent) ].
Qed.

(** A handler other than [cd] returns no directory. *)
Lemma returns_no_directory command h args s d s1 :
  commands re command = Some h -> command <> "cd" ->
  h args s <> (Ok (Some d), s1).
Proof.
  unfold commands. intros H Hne.
  repeat case_bool_decide; simplify_eq.
  - unfold ls. munfold. repeat case_match; congruence.
  - unfold cat. munfold. repeat case_match; congruence.
  - unfold cp. munfold. repeat case_match; congruence.
  - unfold mv. munfold. repeat case_match; congruence.
  - unfold rm. munfold. repeat case_match; congruence.
  - unfold grep. munfold. repeat case_match; congruence.
  - unfold history. munfold. repeat case_match; congruence.
  - unfold undo. munfold. repeat case_match; congruence.
  - done.
Qed.

(** No handler changes the current directory itself. *)
Lemma handler_keeps_current_dir command h args :
  commands re command = Some h -> keeps current_dir (h args).
Proof.
  unfold commands. intros H.
  repeat case_bool_decide; simplify_eq;
    first [ by apply keeps_ls | by apply keeps_cd | by apply keeps_cat
          | by apply keeps_cp | by apply keeps_mv | by apply keeps_rm
          | by apply keeps_grep | by apply keeps_history | by apply keeps_exit_cmd
          | idtac ].
  intros s. destruct (last_undo s) as [u|] eqn:Hu.
  - destruct (run_undo u (tree s)) as [[[]|e] t'] eqn:Hr.
    + by rewrite (undo_returns _ _ _ _ Hu Hr).
    + by rewrite (undo_raises _ _ _ _ _ Hu Hr).
  - by rewrite (undo_none _ _ Hu).
Qed.

(** X7.  Only [cd] changes the current directory: after any other
    command line, whether it is carried out, fails, names no command or
    cannot be split into words, the shell is where it was. *)
Theorem only_cd_changes_directory cmd s :
  (forall args, Shlex.split cmd <> Some ("cd" :: args)) ->
  current_dir (snd (dispatch re cmd s)) = current_dir s.
Proof.
  intros Hcd. destruct (Shlex.split cmd) as [[|command args]|] eqn:Hs.
  - unfold dispatch, execute. munfold. by rewrite Hs.
  - destruct (commands re command) as [h|] eqn:Hc.
    + rewrite (dispatch_spec re cmd command args h s Hs Hc).
      pose proof (handler_keeps_current_dir command h args Hc (logged (LogInfo cmd) s))
        as Hk.
      destruct (h args (logged (LogInfo cmd) s)) as [[[d|]|e] s1] eqn:Hh.
      * exfalso.
        apply (returns_no_directory command h args (logged (LogInfo cmd) s) d s1 Hc);
          [|done]. intros ->. by destruct (Hcd args).
      * done.
      * simpl in Hk. by repeat case_match.
    + unfold dispatch, execute. munfold. by rewrite Hs, Hc.
  - unfold dispatch, execute. munfold. by rewrite Hs.
Qed.

Lemma removelast_plain p : ".." ∉ p -> ".." ∉ removelast p.
Proof.
  destruct p as [|c p _] using rev_ind; [done|].
  rewrite removelast_last. intros H. by apply not_elem_of_app in H as [H _].
Qed.

Lemma foldl_step_plain p acc : ".." ∉ acc -> ".." ∉ foldl Path.step acc p.
Proof.
  revert acc. induction p as [|c p IH]; intros acc Hacc; [done|]. simpl.
  apply IH. unfold Path.step. destruct (decide (c = "..")).
  - by apply removelast_plain.
  - apply not_elem_of_app. split; [done|].
    apply not_elem_of_cons. split; [congruence | apply not_elem_of_nil].
Qed.

(** A resolved path has no [".."] left. *)
Lemma resolve_is_plain p : ".." ∉ Path.resolve p.
Proof. apply foldl_step_plain, not_elem_of_nil. Qed.

(** What exists at a path exists at its resolved form. *)
Lemma stat_resolve t p n :
  Tree.stat t p = Some n -> Tree.stat t (Path.resolve p) = Some n.
Proof.
  unfold Tree.stat. destruct (Tree.canon t p) as [Q|] eqn:HQ; [|done]. simpl.
  intros Hn. apply canon_resolve in HQ as HQeq. subst Q.
  assert (Hc : Tree.canon t (Path.resolve p) = Some (Path.resolve p)).
  { apply (canon_from_plain t [] _ (resolve_is_plain p)). intros q c r Hq. simpl.
    apply (lookup_prefix_dir q c r). rewrite <- Hq. eauto. }
  by rewrite Hc.
Qed.

Lemma cd_returns args s d s1 :
  cd args s = (Ok (Some d), s1) -> s1 = s /\ Tree.is_dir (tree s) d = true.
Proof.
  unfold cd. munfold.
  destruct (Tree.exists_ (tree s) _ && Tree.is_dir (tree s) _) eqn:Hd; [|done].
  intros [= <- <-]. by apply andb_true_iff in Hd as [_ Hd].
Qed.

(** X8.  When [cd] returns, the shell is afterwards in an existing
    directory, named by a path with no [".."] in it; the command is
    recorded and nothing else changes. *)
Theorem cd_lands_in_a_directory cmd args s d s1 :
  Shlex.split cmd = Some ("cd" :: args) ->
  cd args (logged (LogInfo cmd) s) = (Ok (Some d), s1) ->
  exists s',
    dispatch re cmd s = (Ok true, s')
    /\ current_dir s' = Path.resolve d
    /\ (".." ∉ current_dir s')
    /\ Tree.is_dir (tree s') (current_dir s') = true
    /\ tree s' = tree s
    /\ last_undo s' = last_undo s
    /\ global_counter s' = global_counter s + 1.
Proof.
  intros Hs Hcd.
  rewrite (dispatch_spec re cmd "cd" args cd s Hs eq_refl), Hcd.
  destruct (cd_returns _ _ _ _ Hcd) as [-> Hd].
  change (tree (logged (LogInfo cmd) s)) with (tree s) in Hd.
  eexists. split; [done|]. simpl.
  split; [done|]. split; [apply resolve_is_plain|].
  split; [|done]. unfold Tree.is_dir in *.
  destruct (Tree.stat (tree s) d) as [n|] eqn:Hn; [|done].
  by rewrite (stat_resolve _ _ _ Hn).
Qed.

Lemma for_each_emit {A} (l : list A) (g : A -> event) s :
  for_each l (fun x => emit (g x)) s = (Ok tt, set_output (output s ++ (g <$> l)) s).
Proof.
  rewrite (for_each_prints l _ (fun x => [g x])).
  - f_equal. f_equal. f_equal. induction l as [|x l IH]; simpl; [done|by rewrite IH].
  - intros x s' Hc. done.
Qed.

(** X9.  [ls] of a directory prints the names of its entries, each
    once, in ascending order of the names as strings; with [-l] (or [-1])
    anywhere among the arguments, a line of details per entry.  The
    directory is the one named by the first argument that is not such a
    flag, or the current directory when there is none. *)
Theorem ls_prints_sorted_names args s es :
  let long_format := existsb (fun a => bool_decide (a = "-l" \/ a = "-1")) args in
  let target := match filter (fun a => ~ (a = "-l" \/ a = "-1")) args with
                | a :: _ => Path.join (current_dir s) a
                | [] => current_dir s
                end in
  Tree.stat (tree s) target = Some (Dir es) ->
  exists names,
    ls args s
    = (Ok None,
       set_output (output s ++ ((if long_format then PrintStat else Print) <$> names)) s)
    /\ StronglySorted String.le names
    /\ NoDup names
    /\ forall name, name ∈ names <-> is_Some (es !! name).
Proof.
  intros long_format target Hst.
  exists (merge_sort String.le (fst <$> map_to_list es)). split; [|split; [|split]].
  - unfold ls. munfold. fold long_format. fold target.
    assert (Hex : Tree.exists_ (tree s) target = true).
    { unfold Tree.exists_. rewrite Hst. by apply bool_decide_eq_true. }
    assert (Hd : Tree.is_dir (tree s) target = true).
    { unfold Tree.is_dir. by rewrite Hst. }
    rewrite Hex, Hd. cbn [negb]. unfold Os.listdir. rewrite Hst.
    rewrite (for_each_emit _ (fun name => if long_format then PrintStat name
                                          else Print name)).
    by destruct long_format.
  - apply (StronglySorted_merge_sort _).
  - rewrite merge_sort_Permutation. apply NoDup_fst_map_to_list.
  - intros name. rewrite merge_sort_Permutation, list_elem_of_fmap. split.
    + intros ([k v] & -> & H%elem_of_map_to_list). eauto.
    + intros [v Hv]. exists (name, v). split; [done|]. by apply elem_of_map_to_list.
Qed.


End Looking.

Lemma looking_changes_nothing_witness :
  silent (snd (grep Demo.re_compile ["-r"; "hello"; "."] grep_shell)) = silent grep_shell.
Proof.
  apply (looking_changes_nothing Demo.re_compile "grep" (grep Demo.re_compile)).
  - reflexivity.
  - intros H. by repeat (apply elem_of_cons in H as [H|H]; [discriminate H|]);
      apply elem_of_nil in H.
Defined.

Lemma only_cd_changes_directory_witness :
  current_dir (snd (dispatch Demo.re_compile "mv file.txt w" (Demo.shell []))) = ["tmp"].
Proof.
  apply (only_cd_changes_directory Demo.re_compile "mv file.txt w" (Demo.shell [])).
  intros args. discriminate.
Defined.

Lemma cd_lands_in_a_directory_witness :
  exists s',
    dispatch Demo.re_compile "cd w/../w" (Demo.shell []) = (Ok true, s')
    /\ current_dir s' = ["tmp"; "w"]
    /\ (".." ∉ current_dir s')
    /\ Tree.is_dir (tree s') (current_dir s') = true
    /\ tree s' = Demo.world
    /\ last_undo s' = None
    /\ global_counter s' = 0 + 1.
Proof.
  apply (cd_lands_in_a_directory Demo.re_compile "cd w/../w" ["w/../w"] (Demo.shell [])
           ["tmp"; "w"] (logged (LogInfo "cd w/../w") (Demo.shell []))).
  - reflexivity.
  - reflexivity.
Defined.

Lemma ls_prints_sorted_names_witness :
  exists names,
    ls ["-l"] (Demo.shell [])
    = (Ok None, set_output ([] ++ (PrintStat <$> names)) (Demo.shell []))
    /\ StronglySorted String.le names
    /\ NoDup names
    /\ forall name,
         name ∈ names
         <-> is_Some ((<["file.txt" := File (Utf8 "hello")]> (<["w" := Dir ∅]> ∅)
                       : gmap string node) !! name).
Proof.
  apply (ls_prints_sorted_names ["-l"] (Demo.shell [])). reflexivity.
Defined.

(** ** The loop of [run] *)

Section Tame.













End Tame.




Section Loop.

Variable re : string -> bool -> option (string -> bool).

Implicit Types (s : Shell).








(** X12.  [exit] ends the session at once: the lines after it are left
    unread, the command is not recorded in the history, the counter does
    not move, and the file system and the undo descriptor are as they
    were. *)
Theorem exit_ends_the_session cmd args rest s :
  stdin s = cmd :: rest ->
  Text.strip cmd <> "" ->
  Shlex.split cmd = Some ("exit" :: args) ->
  run re s
  = (Ok tt,
     set_stdin rest
       (set_output (output s ++ [banner; prompt s; LogInfo cmd;
                                 LogInfo "Exiting mini-shell."]) s)).
Proof.
  intros Hin Hstrip Hs. unfold run. munfold. cbn [run_loop]. munfold.
  unfold input. simpl. rewrite Hin.
  rewrite (bool_decide_eq_false_2 _ Hstrip).
  rewrite (dispatch_spec re cmd "exit" args exit_cmd _ Hs eq_refl).
  unfold exit_cmd, raise, logged. simpl. rewrite <- !app_assoc. done.
Qed.

Lemma run_loop_blank fuel s :
  Forall (fun line => Text.strip line = "") (stdin s) ->
  (length (stdin s) < fuel)%nat ->
  run_loop re fuel s
  = (Ok tt,
     set_stdin []
       (set_output (output s ++ replicate (S (length (stdin s))) (prompt s)
                    ++ [Print (String "010" "Exiting mini-shell.")]) s)).
Proof.
  revert s. induction fuel as [|fuel IH]; intros s Hb Hf; [lia|].
  cbn [run_loop]. munfold. unfold input.
  destruct (stdin s) as [|line rest] eqn:Hin; simpl.
  - unfold set_stdin, set_output. simpl. rewrite Hin. by rewrite <- app_assoc.
  - apply Forall_cons in Hb as [Hl Hb]. rewrite (bool_decide_eq_true_2 _ Hl).
    rewrite IH by (simpl in *; first [done | lia]).
    simpl. unfold set_stdin, set_output, prompt. simpl. by rewrite <- !app_assoc.
Qed.

(** X13.  Blank lines are prompted for and passed over: on an input of
    blank lines only, [run] prompts once per line and once more at the
    end of the input, says goodbye, and changes nothing else; no line is
    recorded and the counter does not move. *)
Theorem blank_lines_are_skipped s :
  Forall (fun line => Text.strip line = "") (stdin s) ->
  run re s
  = (Ok tt,
     set_stdin []
       (set_output (output s ++ [banner]
                    ++ replicate (S (length (stdin s))) (prompt s)
                    ++ [Print (String "010" "Exiting mini-shell.")]) s)).
Proof.
  intros Hb. unfold run. munfold. unfold modify. cbv beta iota.
  rewrite run_loop_blank by (simpl; first [done | lia]).
  simpl. unfold set_stdin, set_output, prompt. simpl. by rewrite <- !app_assoc.
Qed.

(** X14.  A line whose first word is none of the ten commands is
    reported as an unknown command, on the error stream and in the log;
    nothing else of the session changes, and the line is not recorded. *)
Theorem unknown_command_is_reported cmd command args s :
  Shlex.split cmd = Some (command :: args) ->
  command ∉ ["ls"; "cd"; "cat"; "cp"; "mv"; "rm"; "grep"; "history"; "undo"; "exit"] ->
  dispatch re cmd s
  = (Ok true,
     set_output (output s ++ [LogInfo cmd;
                              PrintErr ("Error: Unknown command: " +:+ command);
                              LogError ("ERROR: Unknown command: " +:+ command)]) s).
Proof.
  intros Hs Hne.
  assert (Hc : commands re command = None).
  { unfold commands.
    repeat (rewrite bool_decide_eq_false_2;
            [|intros ->; apply Hne; set_solver]).
    done. }
  unfold dispatch, execute. munfold. rewrite Hs, Hc. simpl.
  unfold set_output. simpl. by rewrite <- !app_assoc.
Qed.

End Loop.

Lemma exit_ends_the_session_witness :
  run Demo.re_compile (Demo.shell ["exit"; "rm file.txt"])
  = (Ok tt,
     set_stdin ["rm file.txt"]
       (set_output ([] ++ [banner; prompt (Demo.shell ["exit"; "rm file.txt"]);
                           LogInfo "exit"; LogInfo "Exiting mini-shell."])
          (Demo.shell ["exit"; "rm file.txt"]))).
Proof.
  apply (exit_ends_the_session Demo.re_compile "exit" [] ["rm file.txt"]).
  - reflexivity.
  - discriminate.
  - reflexivity.
Defined.

Lemma blank_lines_are_skipped_witness :
  run Demo.re_compile (Demo.shell [""; "   "])
  = (Ok tt,
     set_stdin []
       (set_output ([] ++ [banner]
                    ++ replicate 3 (prompt (Demo.shell [""; "   "]))
                    ++ [Print (String "010" "Exiting mini-shell.")])
          (Demo.shell [""; "   "]))).
Proof.
  apply (blank_lines_are_skipped Demo.re_compile (Demo.shell [""; "   "])).
  repeat constructor.
Defined.

Lemma unknown_command_is_reported_witness :
  dispatch Demo.re_compile "pwd -P" (Demo.shell [])
  = (Ok true,
     set_output ([] ++ [LogInfo "pwd -P";
                        PrintErr ("Error: Unknown command: " +:+ "pwd");
                        LogError ("ERROR: Unknown command: " +:+ "pwd")])
       (Demo.shell [])).
Proof.
  apply (unknown_command_is_reported Demo.re_compile "pwd -P" "pwd" ["-P"]).
  - reflexivity.
  - intros H. by repeat (apply elem_of_cons in H as [H|H]; [discriminate H|]);
      apply elem_of_nil in H.
Defined.

(** ** Starting up *)

Section Startup.

Variable re : string -> bool -> option (string -> bool).
Variable TRASH_DIR : string.

Implicit Types (t : node) (p q : list string) (s : Shell).

(** Paths resolve in a larger tree as they do in a smaller one. *)
Lemma canon_from_extends t t' acc p r :
  extends t t' -> Tree.canon_from t acc p = Some r -> Tree.canon_from t' acc p = Some r.
Proof.
  intros He. revert acc. induction p as [|c p IH]; intros acc; simpl; [done|].
  destruct (Tree.is_dir_node (Tree.lookup acc t)) eqn:Hd; [|done].
  specialize (He acc). destruct (Tree.lookup acc t) as [[d|es]|]; try done.
  rewrite He. apply IH.
Qed.

(** [mkdir(exist_ok=True)], when it returns. *)
Lemma mkdir_makes t p t1 :
  Os.mkdir_exist_ok p t = (Ok tt, t1) ->
  Tree.is_dir t1 p = true
  /\ extends t t1
  /\ (Tree.is_dir t p = true -> t1 = t).
Proof.
  unfold Os.mkdir_exist_ok.
  destruct (Tree.canon t p) as [P|] eqn:HP; [|done].
  destruct (Tree.lookup P t) as [[d|es]|] eqn:Hl; [done|..]; intros [= <-].
  - split; [|split; [apply extends_refl|done]].
    unfold Tree.is_dir, Tree.stat. rewrite HP. simpl. by rewrite Hl.
  - pose proof (update_extends P (Dir ∅) t Hl) as He.
    split; [|split; [done|]].
    + unfold Tree.is_dir, Tree.stat, Tree.canon in *.
      rewrite (canon_from_extends _ _ _ _ _ He HP). simpl.
      destruct (canon_free_parent _ _ _ HP Hl) as (a & c & -> & Ha).
      by rewrite lookup_update_eq.
    + unfold Tree.is_dir, Tree.stat. rewrite HP. simpl. by rewrite Hl.
Qed.

(** X15.  When the constructor returns, the trash directory exists: it
    was there already and the file system is untouched, or it has been
    made, and then every file and directory of the file system is still
    in place.  The session starts in the working directory of the
    process, with no undo descriptor and nothing printed.  Where a
    regular file has the name of the trash directory, the constructor
    raises [FileExistsError]. *)
Theorem init_makes_the_trash env :
  let trash := Path.join (env_home env) TRASH_DIR in
  (forall s, init TRASH_DIR env = Ok s ->
     trash_dir s = trash
     /\ Tree.is_dir (tree s) trash = true
     /\ extends (env_tree env) (tree s)
     /\ (Tree.is_dir (env_tree env) trash = true -> tree s = env_tree env)
     /\ current_dir s = env_cwd env
     /\ last_undo s = None
     /\ output s = [])
  /\ (Tree.is_file (env_tree env) trash = true ->
      exists e, init TRASH_DIR env = Raise e /\ exn_kind e = FileExistsError).
Proof.
  intros trash. split.
  - intros s. unfold init. fold trash.
    destruct (Os.mkdir_exist_ok trash (env_tree env)) as [[[]|e] t1] eqn:Hm; [|done].
    destruct (recover _ _) as [n|e]; [|done]. intros [= <-]. simpl.
    destruct (mkdir_makes _ _ _ Hm) as (H1 & H2 & H3). done.
  - intros Hf. unfold init. fold trash. unfold Os.mkdir_exist_ok.
    destruct (is_file_canon _ _ Hf) as (P & d & -> & ->). eauto.
Qed.





End Startup.

Lemma init_makes_the_trash_witness :
  exists s,
    init ".trash" bare_env = Ok s
    /\ trash_dir s = ["home"; "u"; ".trash"]
    /\ Tree.is_dir (tree s) ["home"; "u"; ".trash"] = true
    /\ Tree.is_dir (env_tree bare_env) ["home"; "u"; ".trash"] = false
    /\ extends (env_tree bare_env) (tree s)
    /\ global_counter s = 2.
Proof.
  destruct (init ".trash" bare_env) as [s|e] eqn:Hi; [|vm_compute in Hi; discriminate Hi].
  destruct (init_makes_the_trash ".trash" bare_env) as [H _].
  destruct (H s Hi) as (H1 & H2 & H3 & _).
  exists s. split; [reflexivity|]. split; [exact H1|]. split; [exact H2|].
  split; [vm_compute; reflexivity|]. split; [exact H3|].
  vm_compute in Hi. injection Hi as <-. reflexivity.
Defined.


(** ** [rm -r] of a directory, then [undo] *)

Section RmTreeUndo.

Variable re : string -> bool -> option (string -> bool).

Implicit Types (t : node) (p q : list string) (s : Shell).

Lemma plain_name p : ".." ∉ p -> Path.name p <> "..".
Proof.
  intros Hp. unfold Path.name. destruct (last p) as [x|] eqn:Hl; [|done].
  simpl. intros ->. apply Hp. by apply last_Some_elem_of.
Qed.

(** A confirmed prompt: the directory is staged. *)
Lemma rm_one_confirmed arg s answer rest :
  arg <> ".." ->
  Tree.is_dir (tree s) (Path.join (current_dir s) arg) = true ->
  Path.resolve (Path.join (current_dir s) arg) <> [] ->
  stdin s = answer :: rest ->
  Text.lower answer = "y" ->
  rm_one true arg s
  = stage (Path.join (current_dir s) arg)
      (set_stdin rest
         (logged (Prompt ("rm: remove directory '" +:+ arg +:+ "'? (y/n) ")) s)).
Proof.
  intros Hdd Hdir Hroot Hin Hans. unfold rm_one.
  rewrite (bool_decide_eq_false_2 _ Hdd). munfold.
  rewrite (is_dir_exists _ _ Hdir), Hdir, (bool_decide_eq_false_2 _ Hroot).
  cbn [negb andb]. unfold input. rewrite Hin.
  by rewrite (bool_decide_eq_true_2 _ Hans).
Qed.

(** X18.  [rm -r] of a directory, confirmed with [y] or [Y], moves the
    directory with all it holds into the trash; the [undo] that follows
    moves it back, and the file system is then exactly as it was.  This
    holds when neither the path of the directory nor that of the trash
    has a [".."] in it and the directory is not the trash or above
    it. *)
Theorem rm_directory_then_undo cmd1 cmd2 arg args answer rest s :
  Shlex.split cmd1 = Some ["rm"; "-r"; arg] ->
  Shlex.split cmd2 = Some ("undo" :: args) ->
  stdin s = answer :: rest ->
  Text.lower answer = "y" ->
  ".." ∉ Path.join (current_dir s) arg ->
  ".." ∉ trash_dir s ->
  Tree.is_dir (tree s) (Path.join (current_dir s) arg) = true ->
  Path.name (Path.join (current_dir s) arg) <> "" ->
  Tree.is_dir (tree s) (trash_dir s) = true ->
  ~ Path.join (current_dir s) arg `prefix_of` trash_dir s ->
  exists s1 s2 c,
    dispatch re cmd1 s = (Ok true, s1)
    /\ dispatch re cmd2 s1 = (Ok true, s2)
    /\ stdin s1 = rest
    /\ Tree.exists_ (tree s1) (Path.join (current_dir s) arg) = false
    /\ Tree.lookup (trash_dir s ++ [c]) (tree s1)
       = Tree.lookup (Path.join (current_dir s) arg) (tree s)
    /\ last_undo s1 = Some (UndoMove (trash_dir s ++ [c]) (Path.join (current_dir s) arg))
    /\ tree s2 = tree s
    /\ last_undo s2 = None.
Proof.
  intros Hs1 Hs2 Hin Hans Hpl Hplt Hdir Hname Htrash Hpre.
  set (path := Path.join (current_dir s) arg) in *.
  destruct (is_dir_canon _ _ Hdir) as (P & es0 & HP & Hn).
  destruct (is_dir_canon _ _ Htrash) as (T & es & HT & Hes).
  apply canon_plain in HP as HPeq; [|done]. apply canon_plain in HT as HTeq; [|done].
  subst P T.
  assert (Harg : arg <> "..").
  { intros ->. apply Hpl. unfold path.
    change (Path.join (current_dir s) "..") with (current_dir s ++ [".."]).
    apply elem_of_app. right. by left. }
  assert (HPne : path <> []).
  { intros Hp. by rewrite Hp in Hname. }
  assert (Hroot : Path.resolve path <> []) by (by rewrite resolve_plain).
  set (s0 := set_stdin rest
               (logged (Prompt ("rm: remove directory '" +:+ arg +:+ "'? (y/n) "))
                  (logged (LogInfo cmd1) s))).
  destruct (stage_slot (tree s) (trash_dir s) (trash_dir s) es (Path.name path))
    as (c & Hslot & Hc1 & Hc2 & Hc & _); try done.
  { by apply plain_name. }
  destruct (staged_tree (tree s) (trash_dir s) es path (Dir es0) c)
    as (HfreeQ & HPQ & HQP & Hnew & Hgone); try done.
  destruct (stat_child (tree s) (trash_dir s) (trash_dir s) es c HT Hes Hc1 Hc2)
    as [HQ _].
  set (t1 := Tree.update (trash_dir s ++ [c]) (Some (Dir es0))
               (Tree.update path None (tree s))) in *.
  set (s1 := set_last_undo (Some (UndoMove (trash_dir s ++ [c]) path)) (set_tree t1 s0)).
  assert (Hstage : stage path s0 = (Ok tt, s1)).
  { apply (stage_runs s0 path (trash_dir s) es path (Dir es0) c); try done.
    by apply plain_name. }
  assert (Hrm : rm ["-r"; arg] (logged (LogInfo cmd1) s) = (Ok None, s1)).
  { rewrite rm_recursive. cbn [for_each].
    unfold mbind at 1 2. unfold M_bind at 1 2.
    rewrite (rm_one_confirmed arg _ answer rest) by done.
    change (Path.join (current_dir (logged (LogInfo cmd1) s)) arg) with path.
    fold s0. by rewrite Hstage. }
  assert (Hplq : ".." ∉ trash_dir s ++ [c]).
  { apply not_elem_of_app. split; [done|].
    apply not_elem_of_cons. split; [congruence | apply not_elem_of_nil]. }
  destruct (moved_and_back (tree s) path (trash_dir s ++ [c]) (Dir es0))
    as (_ & _ & Hback); try done.
  { by destruct (trash_dir s). }
  fold t1 in Hback.
  exists (committed cmd1 None s1). eexists. exists c. split.
  { rewrite (dispatch_spec re cmd1 "rm" ["-r"; arg] rm s Hs1 eq_refl). by rewrite Hrm. }
  split.
  { rewrite (dispatch_spec re cmd2 "undo" args undo _ Hs2 eq_refl).
    rewrite (undo_returns args _ (UndoMove (trash_dir s ++ [c]) path) (tree s));
      [done|done|]. exact Hback. }
  split; [done|]. split.
  { change (tree (committed cmd1 None s1)) with t1.
    unfold Tree.exists_, Tree.stat. apply bool_decide_eq_false. intros [x Hx].
    destruct (Tree.canon t1 path) as [Q|] eqn:HQ1; [|done]. simpl in Hx.
    apply canon_plain in HQ1 as ->; [|done]. by rewrite Hgone in Hx. }
  split; [by rewrite Hn|]. done.
Qed.

(** X19.  [undo] reverses one command only: once it has been carried
    out, the descriptor is gone, and a second [undo] finds nothing to do,
    says so, and leaves the file system as the first one left it. *)
Theorem undo_reverses_one_command cmd1 cmd2 args1 args2 s u t' :
  Shlex.split cmd1 = Some ("undo" :: args1) ->
  Shlex.split cmd2 = Some ("undo" :: args2) ->
  last_undo s = Some u ->
  run_undo u (tree s) = (Ok tt, t') ->
  exists s1 s2,
    dispatch re cmd1 s = (Ok true, s1)
    /\ tree s1 = t'
    /\ last_undo s1 = None
    /\ dispatch re cmd2 s1 = (Ok true, s2)
    /\ tree s2 = t'
    /\ last_undo s2 = None
    /\ output s2 = output s1 ++ [LogInfo cmd2; Print "No action to undo";
                                 LogInfo ("OK: " +:+ cmd2)].
Proof.
  intros Hs1 Hs2 Hu Hr. eexists _, _. split.
  { rewrite (dispatch_spec re cmd1 "undo" args1 undo s Hs1 eq_refl).
    by rewrite (undo_returns args1 _ u t'). }
  split; [done|]. split; [done|]. split.
  { rewrite (dispatch_spec re cmd2 "undo" args2 undo _ Hs2 eq_refl).
    by rewrite undo_none. }
  split; [done|]. split; [done|]. simpl. by rewrite <- !app_assoc.
Qed.

(** X20.  The option loop of [grep] takes every leading argument that
    begins with [-] as a bundle of options, whatever else it holds:
    [-r], [-i], [-ri] and [-r -i] all do, and the search is recursive
    when one of them has an [r] in it, case-insensitive when one has an
    [i].  The loop stops at the first argument that does not begin with
    [-]; what is left must be the pattern and the path. *)
Theorem grep_options_are_bundles opts rest recursive ignore_case :
  Forall (fun opt => Text.starts_with "-" opt = true) opts ->
  (forall a rest', rest = a :: rest' -> Text.starts_with "-" a = false) ->
  grep_options recursive ignore_case (opts ++ rest)
  = (recursive || existsb (Text.has_char "r") opts,
     ignore_case || existsb (Text.has_char "i") opts,
     rest).
Proof.
  intros Hopts Hrest. revert recursive ignore_case.
  induction Hopts as [|opt opts Hopt Hopts IH]; intros recursive ignore_case.
  - simpl. rewrite !orb_false_r. destruct rest as [|a rest']; [done|].
    simpl. by rewrite (Hrest a rest' eq_refl).
  - simpl. rewrite Hopt, IH. by rewrite !orb_assoc.
Qed.

End RmTreeUndo.

Lemma rm_directory_then_undo_witness :
  exists s1 s2 c,
    dispatch Demo.re_compile "rm -r w" twin_shell_y = (Ok true, s1)
    /\ dispatch Demo.re_compile "undo" s1 = (Ok true, s2)
    /\ stdin s1 = []
    /\ Tree.exists_ (tree s1) ["tmp"; "w"] = false
    /\ Tree.lookup (Demo.trash ++ [c]) (tree s1)
       = Some (Dir {["file.txt" := File (Utf8 "other")]})
    /\ last_undo s1 = Some (UndoMove (Demo.trash ++ [c]) ["tmp"; "w"])
    /\ tree s2 = twin_world
    /\ last_undo s2 = None.
Proof.
  apply (rm_directory_then_undo Demo.re_compile "rm -r w" "undo" "w" [] "Y" []
           twin_shell_y).
  - reflexivity.
  - reflexivity.
  - reflexivity.
  - reflexivity.
  - intros H. by repeat (apply elem_of_cons in H as [H|H]; [discriminate H|]);
      apply elem_of_nil in H.
  - intros H. by repeat (apply elem_of_cons in H as [H|H]; [discriminate H|]);
      apply elem_of_nil in H.
  - vm_compute. reflexivity.
  - discriminate.
  - vm_compute. reflexivity.
  - intros [k Hk]. discriminate.
Defined.

Lemma undo_reverses_one_command_witness :
  exists s1 s2,
    dispatch Demo.re_compile "undo" staged_once = (Ok true, s1)
    /\ tree s1 = twin_world
    /\ last_undo s1 = None
    /\ dispatch Demo.re_compile "undo" s1 = (Ok true, s2)
    /\ tree s2 = twin_world
    /\ last_undo s2 = None
    /\ output s2 = output s1 ++ [LogInfo "undo"; Print "No action to undo";
                                 LogInfo ("OK: " +:+ "undo")].
Proof.
  apply (undo_reverses_one_command Demo.re_compile "undo" "undo" [] [] staged_once
           (UndoMove (Demo.trash ++ ["file.txt"]) ["tmp"; "file.txt"]) twin_world).
  - reflexivity.
  - reflexivity.
  - vm_compute. reflexivity.
  - vm_compute. reflexivity.
Defined.

Lemma grep_options_are_bundles_witness :
  grep_options false false (["-ri"; "-n"] ++ ["hello"; "-r"; "."])
  = (false || existsb (Text.has_char "r") ["-ri"; "-n"],
     false || existsb (Text.has_char "i") ["-ri"; "-n"],
     ["hello"; "-r"; "."]).
Proof.
  apply (grep_options_are_bundles ["-ri"; "-n"] ["hello"; "-r"; "."] false false).
  - repeat constructor.
  - intros a rest' [= <- _]. reflexivity.
Defined.


(** ** What [undo] does not reach *)

Section Unreached.

Variable re : string -> bool -> option (string -> bool).

Implicit Types (t : node) (p q : list string) (s : Shell).

Lemma for_each_app {S A} (l1 l2 : list A) (body : A -> M S unit) (s : S) :
  for_each (l1 ++ l2) body s = (for_each l1 body ;; for_each l2 body) s.
Proof.
  revert s. induction l1 as [|x l1 IH]; intros s; simpl.
  - munfold. by destruct (for_each l2 body s) as [[[]|e] s'].
  - munfold. destruct (body x s) as [[[]|e] s']; [|done]. by rewrite IH.
Qed.

(** [rm] of one regular file, and the way back. *)
Lemma rm_one_file arg s :
  Tree.is_file (tree s) (Path.join (current_dir s) arg) = true ->
  Path.name (Path.join (current_dir s) arg) <> "" ->
  Tree.is_dir (tree s) (trash_dir s) = true ->
  exists c t1,
    rm_one false arg s
    = (Ok tt, set_last_undo (Some (UndoMove (trash_dir s ++ [c])
                                            (Path.join (current_dir s) arg)))
                (set_tree t1 s))
    /\ Os.move (trash_dir s ++ [c]) (Path.join (current_dir s) arg) t1 = (Ok tt, tree s)
    /\ Tree.exists_ t1 (Path.join (current_dir s) arg) = false.
Proof.
  intros Hfile Hname Htrash.
  set (path := Path.join (current_dir s) arg) in *.
  destruct (is_file_canon _ _ Hfile) as (P & d & HP & Hd).
  destruct (is_dir_canon _ _ Htrash) as (T & es & HT & Hes).
  assert (Hdd : Path.name path <> "..").
  { intros H. apply (stat_dotdot (tree s)) in H. congruence. }
  assert (Harg : arg <> "..").
  { intros ->. apply Hdd. unfold path, Path.name.
    change (Path.join (current_dir s) "..") with (current_dir s ++ [".."]).
    by rewrite last_snoc. }
  assert (HPne : P <> []).
  { intros ->. destruct (tree s) as [d0|es0] eqn:Ht; [by destruct T|].
    simpl in Hd. congruence. }
  assert (HPT : ~ P `prefix_of` T).
  { intros [[|x k] ->].
    - rewrite app_nil_r in Hes. congruence.
    - by rewrite (lookup_file_below _ _ _ _ _ Hd) in Hes. }
  destruct (stage_slot (tree s) (trash_dir s) T es (Path.name path))
    as (c & Hslot & Hc1 & Hc2 & Hc & _); try done.
  destruct (staged_tree (tree s) T es P (File d) c)
    as (HfreeQ & _ & HQP & Hnew & Hgone); try done.
  destruct (stat_child (tree s) (trash_dir s) T es c HT Hes Hc1 Hc2) as [HQ _].
  set (t1 := Tree.update (T ++ [c]) (Some (File d)) (Tree.update P None (tree s))) in *.
  exists c, t1. split; [|split].
  - unfold rm_one. rewrite (bool_decide_eq_false_2 _ Harg). munfold.
    fold path. rewrite (is_file_exists _ _ Hfile), (is_file_not_dir _ _ Hfile).
    rewrite bool_decide_eq_false_2
      by (by rewrite <- (canon_resolve _ _ _ HP)).
    cbn [negb andb]. by rewrite (stage_runs s path T es P (File d) c).
  - apply (move_back _ path (trash_dir s ++ [c]) P (T ++ [c])); try done.
    + unfold t1. by rewrite canon_file_moved.
    + unfold t1. by rewrite canon_file_moved.
    + unfold Path.name. by rewrite last_snoc.
    + by destruct T.
  - unfold Tree.exists_, Tree.stat, t1. rewrite canon_file_moved, HP by done.
    simpl. fold t1. rewrite Hgone. by apply bool_decide_eq_false; intros [].
Qed.

(** X21.  After an [rm] of several files, [undo] brings back the last
    one only: the file system is then as the loop of [rm] had left it
    before its last operand, with the other operands still in the
    trash. *)
Theorem undo_restores_the_last_operand_only cmd1 cmd2 args arg uargs s sa :
  Shlex.split cmd1 = Some ("rm" :: args ++ [arg]) ->
  Shlex.split cmd2 = Some ("undo" :: uargs) ->
  head (args ++ [arg]) <> Some "-r" ->
  for_each args (rm_one false) (logged (LogInfo cmd1) s) = (Ok tt, sa) ->
  Tree.is_file (tree sa) (Path.join (current_dir sa) arg) = true ->
  Path.name (Path.join (current_dir sa) arg) <> "" ->
  Tree.is_dir (tree sa) (trash_dir sa) = true ->
  exists s1 s2,
    dispatch re cmd1 s = (Ok true, s1)
    /\ Tree.exists_ (tree s1) (Path.join (current_dir sa) arg) = false
    /\ dispatch re cmd2 s1 = (Ok true, s2)
    /\ tree s2 = tree sa
    /\ last_undo s2 = None.
Proof.
  intros Hs1 Hs2 Hr Hloop Hfile Hname Htrash.
  destruct (rm_one_file arg sa Hfile Hname Htrash) as (c & t1 & Hone & Hback & Hgone).
  assert (Hrm : rm (args ++ [arg]) (logged (LogInfo cmd1) s)
                = (Ok None,
                   set_last_undo (Some (UndoMove (trash_dir sa ++ [c])
                                                 (Path.join (current_dir sa) arg)))
                     (set_tree t1 sa))).
  { destruct (args ++ [arg]) as [|a l] eqn:Happ; [by destruct args|].
    rewrite rm_plain by (intros ->; by apply Hr). rewrite <- Happ.
    unfold mbind at 1. unfold M_bind at 1. rewrite for_each_app.
    unfold mbind at 1. unfold M_bind at 1. rewrite Hloop.
    cbn [for_each]. unfold mbind at 1. unfold M_bind at 1. by rewrite Hone. }
  eexists _, _. split.
  { rewrite (dispatch_spec re cmd1 "rm" (args ++ [arg]) rm s Hs1 eq_refl).
    by rewrite Hrm. }
  split; [done|]. split.
  { rewrite (dispatch_spec re cmd2 "undo" uargs undo _ Hs2 eq_refl).
    rewrite (undo_returns uargs _ (UndoMove (trash_dir sa ++ [c])
                                            (Path.join (current_dir sa) arg)) (tree sa));
      [done|done|]. exact Hback. }
  done.
Qed.

(** X22.  A [cp -r] that fails on a file it may not read has copied the
    rest: the destination, which did not exist, is then a directory, and
    no descriptor is registered for it, so that no [undo] removes the
    partial copy; the descriptor of an earlier command, if any, stays. *)
Theorem cp_r_failure_leaves_a_partial_copy a0 a1 s e s1 :
  ".." ∉ Path.join (current_dir s) a1 ->
  cp ["-r"; a0; a1] s = (Raise e, s1) ->
  exn_kind e = ShutilError ->
  Tree.exists_ (tree s) (Path.join (current_dir s) a1) = false
  /\ Tree.is_dir (tree s1) (Path.join (current_dir s) a1) = true
  /\ extends (tree s) (tree s1)
  /\ last_undo s1 = last_undo s
  /\ exists es,
       Tree.stat (tree s) (Path.join (current_dir s) a0) = Some (Dir es)
       /\ Os.all_readable (Dir es) = false.
Proof.
  intros Hpl H Hk. unfold cp in H. cbv beta iota zeta in H.
  rewrite bool_decide_eq_true_2 in H by done.
  cbv beta iota zeta delta [tail] in H. munfold.
  set (src := Path.join (current_dir s) a0) in *.
  set (dst := Path.join (current_dir s) a1) in *.
  assert (Hother : forall k msg (s' : Shell),
             (@Raise (option (list string)) (Exn k msg), s') = (Raise e, s1) ->
             k <> ShutilError -> False).
  { intros k msg s' [= <- _] Hne. by apply Hne. }
  destruct (Tree.exists_ (tree s) src); cbv beta iota delta [negb] in H;
    [|exfalso; eapply Hother; [exact H|discriminate]].
  destruct (Tree.exists_ (tree s) dst) eqn:Hex;
    [exfalso; eapply Hother; [exact H|discriminate]|].
  destruct (Tree.is_dir (tree s) src && _);
    [exfalso; eapply Hother; [exact H|discriminate]|].
  unfold Os.copytree in H.
  destruct (Tree.stat (tree s) src) as [[d|es]|]; cbv beta iota in H;
    [exfalso; eapply Hother; [exact H|discriminate]|
    |exfalso; eapply Hother; [exact H|discriminate]].
  rewrite (resolve_plain _ Hpl) in H.
  destruct (Os.place _ _ _) as [t1|] eqn:Hp;
    [|exfalso; eapply Hother; [exact H|discriminate]].
  destruct (Os.all_readable _) eqn:Hall; [done|].
  injection H as <- <-.
  assert (Hne : dst <> []).
  { intros Hd. rewrite Hd in Hex. done. }
  destruct (rmtree_placed _ _ _ _ Hpl Hne Hp eq_refl) as [Hdir _].
  split; [done|]. split; [done|]. split; [by apply place_extends in Hp|].
  split; [done|]. by exists es.
Qed.

(** ** [grep] of a file outside the current directory *)

Lemma search_outside search f n lines s :
  Path.relative_to (current_dir s) f = None ->
  for_each (enumerate n lines)
    (fun '(lnum, line) =>
       if search line : bool then
         s ← get;
         match Path.relative_to (current_dir s) f with
         | Some rel_f =>
             emit (Print (Path.show_rel rel_f +:+ ":" +:+ Text.str lnum
                          +:+ ":" +:+ line))
         | None => raise ValueError "is not in the subpath of"
         end
       else mret tt) s
  = if existsb search lines
    then (Raise (Exn ValueError "is not in the subpath of"), s)
    else (Ok tt, s).
Proof.
  intros Hrel. revert n. induction lines as [|line lines IH]; intros n; [done|].
  cbn [enumerate for_each existsb]. munfold.
  destruct (search line); simpl; [by rewrite Hrel|apply IH].
Qed.

(** X23.  [grep] of a file that is not below the current directory
    (an absolute operand that leads elsewhere) prints nothing: when no
    line of the file matches it returns, and when a line matches it
    raises [ValueError] at the first such line, for want of a path
    relative to the current directory to print. *)
Theorem grep_outside_the_current_directory
    args recursive ignore_case pattern a1 search s d content :
  grep_options false false args = (recursive, ignore_case, [pattern; a1]) ->
  re pattern ignore_case = Some search ->
  Tree.stat (tree s) (Path.join (current_dir s) a1) = Some (File d) ->
  Os.decode d = inr content ->
  Path.relative_to (current_dir s) (Path.join (current_dir s) a1) = None ->
  (existsb search (splitlines content) = false -> grep re args s = (Ok None, s))
  /\ (existsb search (splitlines content) = true ->
      exists e, grep re args s = (Raise e, s) /\ exn_kind e = ValueError).
Proof.
  intros Ho Hre Hst Hdec Hrel.
  assert (Hex : Tree.exists_ (tree s) (Path.join (current_dir s) a1) = true).
  { unfold Tree.exists_. rewrite Hst. by apply bool_decide_eq_true. }
  assert (Hg : grep re args s
               = if existsb search (splitlines content)
                 then (Raise (Exn ValueError "is not in the subpath of"), s)
                 else (Ok None, s)).
  { unfold grep. rewrite Ho. munfold. rewrite Hex, Hre, Hst. cbn [negb].
    unfold search_file. rewrite Hdec.
    pose proof (search_outside search (Path.join (current_dir s) a1) 1
                  (splitlines content) s Hrel) as Hl.
    munfold. rewrite Hl. by destruct (existsb search (splitlines content)). }
  rewrite Hg. split; intros ->; eauto.
Qed.

End Unreached.

Lemma undo_restores_the_last_operand_only_witness :
  exists s1 s2,
    dispatch Demo.re_compile "rm file.txt w/file.txt" twin_shell = (Ok true, s1)
    /\ Tree.exists_ (tree s1) ["tmp"; "w"; "file.txt"] = false
    /\ dispatch Demo.re_compile "undo" s1 = (Ok true, s2)
    /\ tree s2 = tree staged_once
    /\ last_undo s2 = None.
Proof.
  destruct (undo_restores_the_last_operand_only Demo.re_compile
              "rm file.txt w/file.txt" "undo" ["file.txt"] "w/file.txt" [] twin_shell
              (snd (rm_one false "file.txt"
                      (logged (LogInfo "rm file.txt w/file.txt") twin_shell))))
    as (s1 & s2 & H1 & H2 & H3 & H4 & H5).
  - reflexivity.
  - reflexivity.
  - discriminate.
  - vm_compute. reflexivity.
  - vm_compute. reflexivity.
  - discriminate.
  - vm_compute. reflexivity.
  - exists s1, s2. split; [exact H1|]. split; [exact H2|]. split; [exact H3|].
    split; [|exact H5]. rewrite H4. vm_compute. reflexivity.
Defined.

Lemma cp_r_failure_leaves_a_partial_copy_witness :
  let s1 := snd (cp ["-r"; "."; "/copy"] grep_shell) in
  Tree.exists_ (tree grep_shell) ["copy"] = false
  /\ Tree.is_dir (tree s1) ["copy"] = true
  /\ extends (tree grep_shell) (tree s1)
  /\ last_undo s1 = None
  /\ exists es,
       Tree.stat (tree grep_shell) ["tmp"] = Some (Dir es)
       /\ Os.all_readable (Dir es) = false.
Proof.
  intros s1.
  apply (cp_r_failure_leaves_a_partial_copy "." "/copy" grep_shell
           (Exn ShutilError "[Errno 13] Permission denied") s1).
  - intros H. by repeat (apply elem_of_cons in H as [H|H]; [discriminate H|]);
      apply elem_of_nil in H.
  - vm_compute. reflexivity.
  - reflexivity.
Defined.

Lemma grep_outside_the_current_directory_witness :
  (existsb (Demo.occurs "hello") (splitlines "hello") = false ->
   grep Demo.re_compile ["hello"; "/tmp/file.txt"] inside_w = (Ok None, inside_w))
  /\ (existsb (Demo.occurs "hello") (splitlines "hello") = true ->
      exists e, grep Demo.re_compile ["hello"; "/tmp/file.txt"] inside_w = (Raise e, inside_w)
                /\ exn_kind e = ValueError).
Proof.
  apply (grep_outside_the_current_directory Demo.re_compile ["hello"; "/tmp/file.txt"]
           false false "hello" "/tmp/file.txt" (Demo.occurs "hello") inside_w
           (Utf8 "hello") "hello").
  - reflexivity.
  - reflexivity.
  - vm_compute. reflexivity.
  - reflexivity.
  - vm_compute. reflexivity.
Defined.
